(** * FD_nonlinear_stiff: the finite-difference kernel of [FD_nonlinear_stiff.py]

    The script compares three finite-difference schemes for
    [x'(t) = -lam x + x^alpha], [x(0) = x0], [x(T) = xT] on a uniform grid.
    This file embeds its numerical kernel (source lines 78 to 122): the step
    [h], the grid [t], the right-hand side [f] and the three blocks that fill
    [x_back], [x_cent] and [x_forw].

    - Python floats and numpy [float64] entries are an abstract carrier [F]
      with the arithmetic the script uses ([Arith]) and the two library
      functions it calls, [**] and [np.exp] ([Libm]).  Nothing is assumed
      about them, so every generic theorem holds for IEEE binary64 as well as
      for exact arithmetic.  Two instances are given: [binary64] (primitive
      floats, the arithmetic the script runs on) and [real_arith] (exact
      reals, the arithmetic the schemes are derived in).
    - [N] is a Python [int], a [Z] here.  Dividing a float by it converts
      it with [float(N)], which raises [OverflowError] from
      [2**1024 - 2**970] on ([float_int_bound]).
    - numpy arrays are lists, indexed the Python way: a negative index counts
      from the end, an index out of range raises [IndexError].
    - Exceptions are the [Raise] case of [result]; statements are sequenced
      with bind, so the first exception ends the run.  Floating-point
      warnings and the limits of memory are not modelled.
    - The kernel is embedded twice: as a function of its six parameters
      ([kernel]), and statement by statement on the module's namespace
      ([script]), where a name keeps its binding from one run to the next
      until a statement rebinds it.
    - The platform's [pow] and [exp] are not part of the repository.  Where
      a binary64 result depends on them they are a [Libm] constrained by
      hypotheses. *)

From Stdlib Require Import ZArith Reals Lra Lia Bool.
From Stdlib Require Import Floats.PrimFloat Floats.SpecFloat Floats.FloatOps.
From Stdlib Require Import Floats.FloatAxioms.
From stdpp Require Import base tactics option list.

Local Open Scope Z_scope.

(** ** Exceptions *)

Inductive exn : Set :=
  | ZeroDivisionError
  | IndexError
  | ValueError
  | OverflowError
  | NameError.

Inductive result (A : Type) : Type :=
  | Ok (a : A)
  | Raise (e : exn).
Arguments Ok {A} a.
Arguments Raise {A} e.

#[global] Instance result_ret : MRet result := λ A a, Ok a.
#[global] Instance result_bind : MBind result := λ A B k m,
  match m with
  | Ok a => k a
  | Raise e => Raise e
  end.

(** ** Scalars *)

(** The arithmetic of the script: [of_int n] is the conversion [float(n)]
    Python applies to an integer operand, [feqb] and [fltb] are [==] and [<]. *)
Class Arith (F : Type) : Type := {
  of_int : Z → F;
  fneg : F → F;
  fadd : F → F → F;
  fsub : F → F → F;
  fmul : F → F → F;
  fdiv : F → F → F;
  feqb : F → F → bool;
  fltb : F → F → bool;
}.

(** [x ** y] on floats and [np.exp x]: the platform's [pow] and [exp]. *)
Class Libm (F : Type) : Type := {
  fpow : F → F → F;
  fexp : F → F;
}.

(** ** Python primitives *)

(** The integers Python converts to a float are those that round to a finite
    binary64 value, the ones below [2^1024 - 2^970] in absolute value. *)
Definition float_int_bound : Z := 2 ^ 1024 - 2 ^ 970.

Definition fits_float (n : Z) : bool := Z.abs n <? float_int_bound.

Section Python.
Context {F : Type} {arith : Arith F}.

(** [x / n] with a float [x] and an int [n]: [n] is converted to a float,
    which raises [OverflowError] when it does not fit, and a zero divisor
    raises [ZeroDivisionError]. *)
Definition truediv (x : F) (n : Z) : result F :=
  if n =? 0 then Raise ZeroDivisionError
  else if fits_float n then Ok (fdiv x (of_int n))
  else Raise OverflowError.

(** [range(a, b)] *)
Definition range (a b : Z) : list Z := seqZ a (b - a).

(** [for i in l: s = body(i, s)] *)
Fixpoint for_ {S : Type} (l : list Z) (body : Z → S → result S) (s : S)
  : result S :=
  match l with
  | [] => Ok s
  | i :: l' => s' ← body i s; for_ l' body s'
  end.

(** The position an index denotes in an array of [n] entries. *)
Definition index (n : nat) (i : Z) : result nat :=
  let j := if i <? 0 then i + Z.of_nat n else i in
  if (j <? 0) || (Z.of_nat n <=? j) then Raise IndexError
  else Ok (Z.to_nat j).

(** [a[i]] *)
Definition getitem (a : list F) (i : Z) : result F :=
  j ← index (length a) i;
  match a !! j with
  | Some v => Ok v
  | None => Raise IndexError
  end.

(** [a[i] = v] *)
Definition setitem (a : list F) (i : Z) (v : F) : result (list F) :=
  j ← index (length a) i;
  Ok (<[j := v]> a).

(** [np.zeros(n)] *)
Definition np_zeros (n : Z) : result (list F) :=
  if n <? 0 then Raise ValueError
  else Ok (replicate (Z.to_nat n) (of_int 0)).

(** [np.linspace(start, stop, num)] with the default [endpoint=True], on
    float scalars.  numpy is not part of the repository; this follows its
    [linspace]: [arange(0, num)] is scaled by [step = (stop - start) / div]
    with [div = num - 1] (by [/ div] and [* delta] when the step underflows
    to zero), [start] is added, and the last entry is overwritten with
    [stop]. *)
Definition linspace (start stop : F) (num : Z) : result (list F) :=
  if num <? 0 then Raise ValueError
  else
    let div := num - 1 in
    let delta := fsub stop start in
    let y := of_int <$> range 0 num in
    let y :=
      if 0 <? div then
        let step := fdiv delta (of_int div) in
        if feqb step (of_int 0)
        then (λ v, fmul (fdiv v (of_int div)) delta) <$> y
        else (λ v, fmul v step) <$> y
      else (λ v, fmul v delta) <$> y in
    let y := (λ v, fadd v start) <$> y in
    if 1 <? num then setitem y (-1) stop else Ok y.
End Python.

(** ** The kernel *)

(** The six values the sidebar supplies. *)
Record Params (F : Type) : Type := {
  lam : F;
  alpha : F;
  T : F;
  x0 : F;
  xT : F;
  N : Z;
}.
Arguments lam {F} _.
Arguments alpha {F} _.
Arguments T {F} _.
Arguments x0 {F} _.
Arguments xT {F} _.
Arguments N {F} _.

(** The names the kernel binds: [h], [t], [x_back], [x_cent], [x_forw]. *)
Record Outputs (F : Type) : Type := {
  out_h : F;
  out_t : list F;
  out_back : list F;
  out_cent : list F;
  out_forw : list F;
}.
Arguments out_h {F} _.
Arguments out_t {F} _.
Arguments out_back {F} _.
Arguments out_cent {F} _.
Arguments out_forw {F} _.

Section Kernel.
Context {F : Type} {arith : Arith F} {libm : Libm F}.
Variable p : Params F.

(** [def f(x): return -lam * x + x**alpha] *)
Definition f (x : F) : F :=
  fadd (fmul (fneg (lam p)) x) (fpow x (alpha p)).

(** One pass of the inner loop of the backward block:
    [xi = (x_back[i - 1] + h * xi**alpha) / (1 + h * lam)] *)
Definition back_update (h : F) (prev xi : F) : F :=
  fdiv (fadd prev (fmul h (fpow xi (alpha p))))
       (fadd (of_int 1) (fmul h (lam p))).

Definition back_inner (h : F) (a : list F) (i : Z) (xi : F) : result F :=
  prev ← getitem a (i - 1);
  Ok (back_update h prev xi).

(** Body of [for i in range(1, N)] in the backward block. *)
Definition back_body (h : F) (i : Z) (a : list F) : result (list F) :=
  xi ← getitem a (i - 1);
  xi ← for_ (range 0 15) (λ _ xi, back_inner h a i xi) xi;
  setitem a i xi.

Definition x_back (h : F) : result (list F) :=
  a ← np_zeros (N p + 1);
  a ← setitem a 0 (x0 p);
  a ← setitem a (-1) (xT p);
  for_ (range 1 (N p)) (back_body h) a.

(** [x0 * np.exp(-lam * h)] *)
Definition cent_seed (h : F) : F :=
  fmul (x0 p) (fexp (fmul (fneg (lam p)) h)).

(** [x_cent[i - 1] + 2 * h * f(x_cent[i])] *)
Definition cent_update (h : F) (prev cur : F) : F :=
  fadd prev (fmul (fmul (of_int 2) h) (f cur)).

Definition cent_body (h : F) (i : Z) (a : list F) : result (list F) :=
  prev ← getitem a (i - 1);
  cur ← getitem a i;
  setitem a (i + 1) (cent_update h prev cur).

Definition x_cent (h : F) : result (list F) :=
  a ← np_zeros (N p + 1);
  a ← setitem a 0 (x0 p);
  a ← setitem a (-1) (xT p);
  a ← setitem a 1 (cent_seed h);
  for_ (range 1 (N p)) (cent_body h) a.

(** [x_forw[i + 1] = x_forw[i] + h * f(x_forw[i])] *)
Definition forw_body (h : F) (i : Z) (a : list F) : result (list F) :=
  cur ← getitem a i;
  cur' ← getitem a i;
  setitem a (i + 1) (fadd cur (fmul h (f cur'))).

Definition x_forw (h : F) : result (list F) :=
  a ← np_zeros (N p + 1);
  a ← setitem a 0 (x0 p);
  for_ (range 0 (N p)) (forw_body h) a.

(** Lines 78 to 122, top to bottom. *)
Definition kernel : result (Outputs F) :=
  h ← truediv (T p) (N p);
  t ← linspace (of_int 0) (T p) (N p + 1);
  xb ← x_back h;
  xc ← x_cent h;
  xf ← x_forw h;
  Ok {| out_h := h; out_t := t; out_back := xb; out_cent := xc;
        out_forw := xf |}.
End Kernel.

(** ** The two arithmetics *)

(** [float(n)]: the integer rounded to the nearest binary64 value. *)
Definition float_of_Z (z : Z) : float :=
  SF2Prim (binary_normalize 53 1024 z 0 false).

(** IEEE binary64, the arithmetic of Python floats and [np.float64]. *)
#[global] Instance binary64 : Arith float := {|
  of_int := float_of_Z;
  fneg := PrimFloat.opp;
  fadd := PrimFloat.add;
  fsub := PrimFloat.sub;
  fmul := PrimFloat.mul;
  fdiv := PrimFloat.div;
  feqb := PrimFloat.eqb;
  fltb := PrimFloat.ltb;
|}.

(** Exact real arithmetic, the arithmetic the schemes are derived in: no
    rounding, no overflow, no NaN.  It is not the arithmetic the script runs
    on; what is proved in it says what the formulas compute, not what
    binary64 returns. *)
#[global] Instance real_arith : Arith R := {|
  of_int := IZR;
  fneg := Ropp;
  fadd := Rplus;
  fsub := Rminus;
  fmul := Rmult;
  fdiv := Rdiv;
  feqb := λ x y, if Req_dec_T x y then true else false;
  fltb := λ x y, if Rlt_dec x y then true else false;
|}.

(** The power is the Standard Library's [Rpower x y = exp (y * ln x)]: the
    real power for a positive base, and 1 for any other base, unlike [**].
    The generic theorems hold for every [Libm]; the runs worked out with
    this one raise positive bases only. *)
#[global] Instance real_libm : Libm R := {|
  fpow := Rpower;
  fexp := exp;
|}.

(** The same parameters with another right boundary value. *)
Definition with_xT {F : Type} (p : Params F) (w : F) : Params F :=
  {| lam := lam p; alpha := alpha p; T := T p; x0 := x0 p; xT := w;
     N := N p |}.

(** ** The script, statement by statement *)

(** The module namespace while lines 78 to 122 run: the six names the
    sidebar has bound and the names the kernel binds, [h], [t], [x_back],
    [x_cent], [x_forw] and the loop variables [i] and [xi]; each of these is
    unbound ([None]) or holds a value, possibly one an earlier run has left.
    The loop variable [_] of line 98 is never read and is left out. *)
Record Globals (F : Type) : Type := {
  g_params : Params F;
  g_h : option F;
  g_t : option (list F);
  g_x_back : option (list F);
  g_x_cent : option (list F);
  g_x_forw : option (list F);
  g_i : option Z;
  g_xi : option F;
}.
Arguments Build_Globals {F} _ _ _ _ _ _ _ _.
Arguments g_params {F} _.
Arguments g_h {F} _.
Arguments g_t {F} _.
Arguments g_x_back {F} _.
Arguments g_x_cent {F} _.
Arguments g_x_forw {F} _.
Arguments g_i {F} _.
Arguments g_xi {F} _.

(** Reading a name: an unbound one raises [NameError]. *)
Definition name {A : Type} (o : option A) : result A :=
  match o with
  | Some v => Ok v
  | None => Raise NameError
  end.

Section Script.
Context {F : Type} {arith : Arith F} {libm : Libm F}.
Implicit Types (g : Globals F).

(** Binding a name. *)
Definition set_h g (v : F) : Globals F :=
  Build_Globals (g_params g) (Some v) (g_t g) (g_x_back g) (g_x_cent g)
                (g_x_forw g) (g_i g) (g_xi g).
Definition set_t g (v : list F) : Globals F :=
  Build_Globals (g_params g) (g_h g) (Some v) (g_x_back g) (g_x_cent g)
                (g_x_forw g) (g_i g) (g_xi g).
Definition set_x_back g (v : list F) : Globals F :=
  Build_Globals (g_params g) (g_h g) (g_t g) (Some v) (g_x_cent g)
                (g_x_forw g) (g_i g) (g_xi g).
Definition set_x_cent g (v : list F) : Globals F :=
  Build_Globals (g_params g) (g_h g) (g_t g) (g_x_back g) (Some v)
                (g_x_forw g) (g_i g) (g_xi g).
Definition set_x_forw g (v : list F) : Globals F :=
  Build_Globals (g_params g) (g_h g) (g_t g) (g_x_back g) (g_x_cent g)
                (Some v) (g_i g) (g_xi g).
Definition set_i g (v : Z) : Globals F :=
  Build_Globals (g_params g) (g_h g) (g_t g) (g_x_back g) (g_x_cent g)
                (g_x_forw g) (Some v) (g_xi g).
Definition set_xi g (v : F) : Globals F :=
  Build_Globals (g_params g) (g_h g) (g_t g) (g_x_back g) (g_x_cent g)
                (g_x_forw g) (g_i g) (Some v).

(** [for i in l: body], with the loop variable [i] a name of the module. *)
Definition for_i (l : list Z) (body : Globals F → result (Globals F)) g
  : result (Globals F) :=
  for_ l (λ k g, body (set_i g k)) g.

(** Line 78: [h = T / N] *)
Definition bind_h g : result (Globals F) :=
  h ← truediv (T (g_params g)) (N (g_params g));
  Ok (set_h g h).

(** Line 79: [t = np.linspace(0, T, N + 1)] *)
Definition bind_t g : result (Globals F) :=
  t ← linspace (of_int 0) (T (g_params g)) (N (g_params g) + 1);
  Ok (set_t g t).

(** Line 92: [x_back = np.zeros(N + 1)] *)
Definition back_alloc g : result (Globals F) :=
  a ← np_zeros (N (g_params g) + 1);
  Ok (set_x_back g a).

(** Line 93: [x_back[0] = x0] *)
Definition back_left g : result (Globals F) :=
  a ← name (g_x_back g);
  a ← setitem a 0 (x0 (g_params g));
  Ok (set_x_back g a).

(** Line 94: [x_back[-1] = xT] *)
Definition back_right g : result (Globals F) :=
  a ← name (g_x_back g);
  a ← setitem a (-1) (xT (g_params g));
  Ok (set_x_back g a).

(** Line 97: [xi = x_back[i - 1]] *)
Definition back_xi g : result (Globals F) :=
  a ← name (g_x_back g);
  i ← name (g_i g);
  v ← getitem a (i - 1);
  Ok (set_xi g v).

(** Line 99: [xi = (x_back[i - 1] + h * xi**alpha) / (1 + h * lam)] *)
Definition back_iterate g : result (Globals F) :=
  a ← name (g_x_back g);
  i ← name (g_i g);
  prev ← getitem a (i - 1);
  h ← name (g_h g);
  xi ← name (g_xi g);
  Ok (set_xi g (back_update (g_params g) h prev xi)).

(** Line 100: [x_back[i] = xi] *)
Definition back_store g : result (Globals F) :=
  xi ← name (g_xi g);
  a ← name (g_x_back g);
  i ← name (g_i g);
  a ← setitem a i xi;
  Ok (set_x_back g a).

(** Lines 97 to 100, one pass of the outer loop. *)
Definition back_pass g : result (Globals F) :=
  g ← back_xi g;
  g ← for_ (range 0 15) (λ _ g, back_iterate g) g;
  back_store g.

(** Lines 92 to 100. *)
Definition back_block g : result (Globals F) :=
  g ← back_alloc g;
  g ← back_left g;
  g ← back_right g;
  for_i (range 1 (N (g_params g))) back_pass g.

(** Line 106: [x_cent = np.zeros(N + 1)] *)
Definition cent_alloc g : result (Globals F) :=
  a ← np_zeros (N (g_params g) + 1);
  Ok (set_x_cent g a).

(** Line 107: [x_cent[0] = x0] *)
Definition cent_left g : result (Globals F) :=
  a ← name (g_x_cent g);
  a ← setitem a 0 (x0 (g_params g));
  Ok (set_x_cent g a).

(** Line 108: [x_cent[-1] = xT] *)
Definition cent_right g : result (Globals F) :=
  a ← name (g_x_cent g);
  a ← setitem a (-1) (xT (g_params g));
  Ok (set_x_cent g a).

(** Line 109: [x_cent[1] = x0 * np.exp(-lam * h)] *)
Definition cent_second g : result (Globals F) :=
  h ← name (g_h g);
  a ← name (g_x_cent g);
  a ← setitem a 1 (cent_seed (g_params g) h);
  Ok (set_x_cent g a).

(** Line 112: [x_cent[i + 1] = x_cent[i - 1] + 2 * h * f(x_cent[i])] *)
Definition cent_pass g : result (Globals F) :=
  a ← name (g_x_cent g);
  i ← name (g_i g);
  prev ← getitem a (i - 1);
  h ← name (g_h g);
  cur ← getitem a i;
  a ← setitem a (i + 1) (cent_update (g_params g) h prev cur);
  Ok (set_x_cent g a).

(** Lines 106 to 112. *)
Definition cent_block g : result (Globals F) :=
  g ← cent_alloc g;
  g ← cent_left g;
  g ← cent_right g;
  g ← cent_second g;
  for_i (range 1 (N (g_params g))) cent_pass g.

(** Line 118: [x_forw = np.zeros(N + 1)] *)
Definition forw_alloc g : result (Globals F) :=
  a ← np_zeros (N (g_params g) + 1);
  Ok (set_x_forw g a).

(** Line 119: [x_forw[0] = x0] *)
Definition forw_left g : result (Globals F) :=
  a ← name (g_x_forw g);
  a ← setitem a 0 (x0 (g_params g));
  Ok (set_x_forw g a).

(** Line 122: [x_forw[i + 1] = x_forw[i] + h * f(x_forw[i])] *)
Definition forw_pass g : result (Globals F) :=
  a ← name (g_x_forw g);
  i ← name (g_i g);
  cur ← getitem a i;
  h ← name (g_h g);
  cur' ← getitem a i;
  a ← setitem a (i + 1) (fadd cur (fmul h (f (g_params g) cur')));
  Ok (set_x_forw g a).

(** Lines 118 to 122. *)
Definition forw_block g : result (Globals F) :=
  g ← forw_alloc g;
  g ← forw_left g;
  for_i (range 0 (N (g_params g))) forw_pass g.

(** Lines 78 to 122 as the statements of the script, run in a namespace
    [g]. *)
Definition script g : result (Globals F) :=
  g ← bind_h g;
  g ← bind_t g;
  g ← back_block g;
  g ← cent_block g;
  forw_block g.

(** What a namespace holds under the names the kernel has bound: the step,
    the grid and the three trajectories the plots read. *)
Definition outputs_of g : result (Outputs F) :=
  h ← name (g_h g);
  t ← name (g_t g);
  xb ← name (g_x_back g);
  xc ← name (g_x_cent g);
  xf ← name (g_x_forw g);
  Ok {| out_h := h; out_t := t; out_back := xb; out_cent := xc;
        out_forw := xf |}.
End Script.

(** ** What the blocks leave behind *)

Section Post.
Context {F : Type} {arith : Arith F} {libm : Libm F}.
Variable p : Params F.
Variable h : F.

(** The inner loop of the backward block: fifteen passes of the update,
    started at [u = x_back[i - 1]]. *)
Definition back_fixed_point (u : F) : F :=
  Nat.iter 15 (back_update p h u) u.

(** What the backward block leaves in [x_back]. *)
Definition back_post (tr : list F) : Prop :=
  Z.of_nat (length tr) = N p + 1 ∧
  getitem tr 0 = Ok (x0 p) ∧
  getitem tr (N p) = Ok (xT p) ∧
  ∀ i : Z, 1 ≤ i < N p →
    ∃ u, getitem tr (i - 1) = Ok u ∧
         getitem tr i = Ok (back_fixed_point u).

(** What the central block leaves in [x_cent]. *)
Definition cent_post (tr : list F) : Prop :=
  Z.of_nat (length tr) = N p + 1 ∧
  getitem tr 0 = Ok (x0 p) ∧
  getitem tr 1 = Ok (cent_seed p h) ∧
  ∀ i : Z, 1 ≤ i < N p →
    ∃ u v, getitem tr (i - 1) = Ok u ∧ getitem tr i = Ok v ∧
           getitem tr (i + 1) = Ok (cent_update p h u v).

(** What the forward block leaves in [x_forw]. *)
Definition forw_post (tr : list F) : Prop :=
  Z.of_nat (length tr) = N p + 1 ∧
  getitem tr 0 = Ok (x0 p) ∧
  ∀ i : Z, 0 ≤ i < N p →
    ∃ v, getitem tr i = Ok v ∧
         getitem tr (i + 1) = Ok (fadd v (fmul h (f p v))).
End Post.

(** ** The grid *)

(** Entry [i] of [np.linspace(start, stop, n + 1)] before the last entry is
    overwritten. *)
Definition grid_entry {F : Type} {arith : Arith F}
    (start stop : F) (n i : Z) : F :=
  let delta := fsub stop start in
  let step := fdiv delta (of_int n) in
  fadd (if feqb step (of_int 0)
        then fmul (fdiv (of_int i) (of_int n)) delta
        else fmul (of_int i) step)
       start.

(** The grid as the specification describes it: it starts at 0, ends at [T],
    increases strictly, and consecutive points differ by [h = T / N]. *)
Definition uniform_grid {F : Type} {arith : Arith F} (T : F) (N : Z) : Prop :=
  ∃ h t,
    truediv T N = Ok h ∧
    linspace (of_int 0) T (N + 1) = Ok t ∧
    getitem t 0 = Ok (of_int 0) ∧
    getitem t N = Ok T ∧
    ∀ i, 0 ≤ i < N →
      ∃ u v, getitem t i = Ok u ∧ getitem t (i + 1) = Ok v ∧
             fltb u v = true ∧ fsub v u = h.

(** The grid as binary64 computes it at best: as [uniform_grid], with the
    spacing within [tol] of [h] instead of equal to it. *)
Definition rounded_grid (T : float) (N : Z) (tol : float) : Prop :=
  ∃ h t,
    truediv T N = Ok h ∧
    linspace (of_int 0) T (N + 1) = Ok t ∧
    getitem t 0 = Ok 0%float ∧
    getitem t N = Ok T ∧
    ∀ i, 0 ≤ i < N →
      ∃ u v, getitem t i = Ok u ∧ getitem t (i + 1) = Ok v ∧
             (u <? v)%float = true ∧
             (abs (v - u - h) <=? tol)%float = true.

(** [rounded_grid], decided by running the grid. *)
Definition rounded_grid_check (T : float) (N : Z) (tol : float) : bool :=
  match truediv T N, linspace (of_int 0) T (N + 1) with
  | Ok h, Ok t =>
      match getitem t 0, getitem t N with
      | Ok first, Ok last =>
          Leibniz.eqb first 0%float && Leibniz.eqb last T &&
          forallb (λ i,
                     match getitem t i, getitem t (i + 1) with
                     | Ok u, Ok v =>
                         (u <? v)%float && (abs (v - u - h) <=? tol)%float
                     | _, _ => false
                     end)
                  (range 0 N)
      | _, _ => false
      end
  | _, _ => false
  end.

(** ** Parameter sets *)

(** The parameters the sidebar starts with. *)
Definition default_params : Params R :=
  {| lam := 7%R; alpha := 3%R; T := 1%R; x0 := (1 / 2)%R; xT := 0%R;
     N := 200 |}.

(** [lam = 0], [alpha = 2], [T = 1], [x0 = 1], [xT = 0], [N = 2]. *)
Definition two_step_params {F : Type} {arith : Arith F} : Params F :=
  {| lam := of_int 0; alpha := of_int 2; T := of_int 1; x0 := of_int 1;
     xT := of_int 0; N := 2 |}.

(** The same with [N = 50], the least value of the sidebar's slider. *)
Definition fifty_step_params : Params R :=
  {| lam := 0%R; alpha := 2%R; T := 1%R; x0 := 1%R; xT := 0%R; N := 50 |}.

(** The default parameters with a single grid interval. *)
Definition single_interval_params : Params R :=
  {| lam := 7%R; alpha := 3%R; T := 1%R; x0 := (1 / 2)%R; xT := 0%R;
     N := 1 |}.

(** The default parameters with [N = 0]. *)
Definition no_interval_params : Params R :=
  {| lam := 7%R; alpha := 3%R; T := 1%R; x0 := (1 / 2)%R; xT := 0%R;
     N := 0 |}.

(** The default parameters with an [N] that does not fit a float. *)
Definition huge_params : Params R :=
  {| lam := 7%R; alpha := 3%R; T := 1%R; x0 := (1 / 2)%R; xT := 0%R;
     N := 10 ^ 400 |}.

(** The default parameters as the script holds them, in binary64. *)
Definition default_binary64 : Params float :=
  {| lam := 7%float; alpha := 3%float; T := 1%float; x0 := 0.5%float;
     xT := 0%float; N := 200 |}.

(** A namespace with nothing bound by the kernel yet, and one that still
    holds what an earlier run with other parameters has left. *)
Definition fresh_globals : Globals R :=
  Build_Globals default_params None None None None None None None.

Definition stale_globals : Globals R :=
  Build_Globals default_params (Some 3%R) (Some [0%R]) (Some [])
                (Some [2%R; 5%R]) None (Some 7) (Some 1%R).

(** ** The libm of the default run *)

(** The cube of a binary64 value, correctly rounded: the exact cube of
    [m * 2^e] is [m^3 * 2^(3 e)], rounded to nearest even. *)
Definition cube_rn (x : float) : float :=
  match Prim2SF x with
  | S754_finite s m e =>
      SF2Prim (binary_normalize 53 1024
                 (if s then Z.opp (Zpos m ^ 3) else Zpos m ^ 3) (3 * e) s)
  | _ => (x * x * x)%float
  end.

(** [-lam * h] of the default run, [-0.035], and the binary64 value nearest
    to its exponential, [0.9656054162575665], with its two neighbours. *)
Definition default_exp_arg : float := (-0x1.1eb851eb851ecp-5)%float.
Definition default_exp_values : list float :=
  [0x1.ee63d547555b9p-1; 0x1.ee63d547555bap-1; 0x1.ee63d547555bbp-1]%float.

(** A libm that answers [pow] with the correctly rounded cube and [exp] with
    [e]: what the default run asks of a libm, where [alpha] is 3 and [exp]
    is called once. *)
Definition cube_libm (e : float) : Libm float :=
  {| fpow := λ x _, cube_rn x; fexp := λ _, e |}.

(** ** The schemes as maps *)

Section Maps.
Context {F : Type} {arith : Arith F} {libm : Libm F}.
Variable p : Params F.
Variable h : F.

(** One pass of the forward loop, as a map on the entry it reads:
    [x_forw[i] + h * f(x_forw[i])]. *)
Definition forw_step (v : F) : F := fadd v (fmul h (f p v)).

(** One pass of the central loop, as a map on the two entries it reads. *)
Definition cent_step (uv : F * F) : F * F :=
  (uv.2, cent_update p h uv.1 uv.2).
End Maps.

(** ** The sidebar *)

(** [st.slider(..., min_value=50, max_value=500, value=200, step=25)]: the
    values the slider for [N] offers. *)
Definition slider_N (n : Z) : bool :=
  (50 <=? n) && (n <=? 500) && ((n - 50) mod 25 =? 0).

(** The default parameters on twice the interval with twice the points. *)
Definition doubled_params : Params R :=
  {| lam := 7%R; alpha := 3%R; T := 2%R; x0 := (1 / 2)%R; xT := 0%R;
     N := 400 |}.

(** The default parameters with a negative [N]. *)
Definition minus_one_params : Params R :=
  {| lam := 7%R; alpha := 3%R; T := 1%R; x0 := (1 / 2)%R; xT := 0%R;
     N := -1 |}.

Definition minus_two_params : Params R :=
  {| lam := 7%R; alpha := 3%R; T := 1%R; x0 := (1 / 2)%R; xT := 0%R;
     N := -2 |}.

(** * Properties *)

Lemma bind_Ok {A B : Type} (a : A) (k : A → result B) : Ok a ≫= k = k a.
Proof. reflexivity. Qed.

(** ** Indexing *)

Example getitem_negative : getitem [10; 20; 30] (-1) = Ok 30.
Proof. reflexivity. Qed.

Example getitem_out_of_range : getitem [10; 20; 30] 3 = Raise IndexError.
Proof. reflexivity. Qed.

Example setitem_negative : setitem [10; 20; 30] (-1) 7 = Ok [10; 20; 7].
Proof. reflexivity. Qed.

Example setitem_out_of_range : setitem [10] 1 7 = Raise IndexError.
Proof. reflexivity. Qed.

Example range_1_4 : range 1 4 = [1; 2; 3].
Proof. reflexivity. Qed.

Example range_1_1 : range 1 1 = [].
Proof. reflexivity. Qed.

Example linspace_binary64_quarters :
  linspace 0%float 1%float 5 = Ok [0; 0.25; 0.5; 0.75; 1]%float.
Proof. vm_compute. reflexivity. Qed.

Section Indexing.
Context {F : Type}.
Implicit Types (a : list F) (i j : Z) (v : F).

Lemma index_nonneg (n : nat) i :
  0 ≤ i < Z.of_nat n → index n i = Ok (Z.to_nat i).
Proof.
  intros Hi. unfold index.
  destruct (Z.ltb_spec i 0); [lia|].
  destruct (Z.ltb_spec i 0); [lia|].
  destruct (Z.leb_spec (Z.of_nat n) i); [lia|]. reflexivity.
Qed.

Lemma index_last (n : nat) :
  (0 < n)%nat → index n (-1) = Ok (n - 1)%nat.
Proof.
  intros Hn. unfold index.
  change (-1 <? 0) with true. cbv iota zeta.
  destruct (Z.ltb_spec (-1 + Z.of_nat n) 0); [lia|].
  destruct (Z.leb_spec (Z.of_nat n) (-1 + Z.of_nat n)); [lia|].
  simpl. f_equal. lia.
Qed.

Lemma getitem_nonneg a i :
  0 ≤ i < Z.of_nat (length a) →
  ∀ v, getitem a i = Ok v ↔ a !! Z.to_nat i = Some v.
Proof.
  intros Hi v. unfold getitem. rewrite index_nonneg by done. simpl.
  destruct (a !! Z.to_nat i) eqn:E; split; congruence.
Qed.

Lemma getitem_lookup a i v :
  0 ≤ i → a !! Z.to_nat i = Some v → getitem a i = Ok v.
Proof.
  intros Hi Hl. apply getitem_nonneg; [|done].
  apply lookup_lt_Some in Hl. lia.
Qed.

Lemma setitem_nonneg a i v :
  0 ≤ i < Z.of_nat (length a) →
  setitem a i v = Ok (<[Z.to_nat i := v]> a).
Proof. intros Hi. unfold setitem. by rewrite index_nonneg. Qed.

Lemma setitem_last a v :
  a ≠ [] → setitem a (-1) v = Ok (<[(length a - 1)%nat := v]> a).
Proof.
  intros Ha. unfold setitem. rewrite index_last; [done|].
  destruct a; [done|simpl; lia].
Qed.

End Indexing.

(** ** Loops *)

Lemma range_nil (a b : Z) : b ≤ a → range a b = [].
Proof. intros Hab. unfold range. apply seqZ_nil. lia. Qed.

Lemma range_cons (a b : Z) : a < b → range a b = a :: range (a + 1) b.
Proof.
  intros Hab. unfold range. rewrite seqZ_cons by lia.
  do 2 f_equal; lia.
Qed.

(** The invariant rule for [for i in range(a, b)]: an invariant that holds
    on entry and is carried by every pass of a body that does not raise
    holds on exit, and the loop does not raise. *)
Lemma for_range_inv {S : Type} (I : Z → S → Prop)
    (body : Z → S → result S) (a b : Z) (s : S) :
  a ≤ b →
  I a s →
  (∀ i s, a ≤ i < b → I i s → ∃ s', body i s = Ok s' ∧ I (i + 1) s') →
  ∃ s', for_ (range a b) body s = Ok s' ∧ I b s'.
Proof.
  intros Hab. remember (Z.to_nat (b - a)) as n eqn:Hn.
  revert a s Hab Hn. induction n as [|n IH]; intros a s Hab Hn Hinit Hstep.
  - assert (a = b) as -> by lia.
    rewrite range_nil by lia. eauto.
  - rewrite range_cons by lia. simpl.
    destruct (Hstep a s) as (s1 & Hbody & Hinv); [lia|done|].
    rewrite Hbody. simpl.
    apply IH; [lia|lia|done|].
    intros i s2 Hi. apply Hstep. lia.
Qed.

(** ** The three blocks *)

Section Blocks.
Context {F : Type} {arith : Arith F} {libm : Libm F}.
Variable p : Params F.
Variable h : F.
Hypothesis N_pos : 1 ≤ N p.

Implicit Types (a tr : list F) (i j : Z).

Lemma np_zeros_N :
  np_zeros (N p + 1) = Ok (replicate (Z.to_nat (N p + 1)) (of_int 0)).
Proof. unfold np_zeros. destruct (Z.ltb_spec (N p + 1) 0); [lia|done]. Qed.

Lemma x_forw_run : ∃ tr, x_forw p h = Ok tr ∧ forw_post p h tr.
Proof.
  unfold x_forw. rewrite np_zeros_N. simpl.
  rewrite setitem_nonneg by (rewrite length_replicate; lia). simpl.
  set (a0 := <[Z.to_nat 0 := x0 p]> _).
  pose (I := λ (k : Z) (a : list F),
    Z.of_nat (length a) = N p + 1 ∧
    a !! 0%nat = Some (x0 p) ∧
    ∀ i, 0 ≤ i < k →
      ∃ v, a !! Z.to_nat i = Some v ∧
           a !! Z.to_nat (i + 1) = Some (fadd v (fmul h (f p v)))).
  destruct (for_range_inv I (forw_body p h) 0 (N p) a0) as (tr & Hrun & Htr).
  - lia.
  - subst I a0. simpl. rewrite length_insert, length_replicate.
    split; [lia|]. split; [|intros; lia].
    apply list_lookup_insert_eq. rewrite length_replicate. lia.
  - intros i a Hi (Hlen & H0 & Hrec).
    destruct (lookup_lt_is_Some_2 a (Z.to_nat i)) as [v Hv]; [lia|].
    unfold forw_body.
    rewrite (getitem_lookup a i v) by (done || lia). simpl.
    rewrite setitem_nonneg by lia. eexists; split; [done|].
    subst I. simpl. rewrite length_insert. split; [done|]. split.
    + rewrite list_lookup_insert_ne by lia. done.
    + intros j Hj. destruct (decide (j = i)) as [->|Hne].
      * exists v. rewrite list_lookup_insert_ne by lia. split; [done|].
        apply list_lookup_insert_eq. lia.
      * destruct (Hrec j) as (w & Hw & Hw'); [lia|]. exists w.
        rewrite !list_lookup_insert_ne by lia. done.
  - exists tr. split; [done|]. destruct Htr as (Hlen & H0 & Hrec).
    split; [done|]. split.
    + by apply getitem_lookup.
    + intros i Hi. destruct (Hrec i Hi) as (v & Hv & Hv').
      exists v. split; apply getitem_lookup; done || lia.
Qed.

Lemma x_cent_run : ∃ tr, x_cent p h = Ok tr ∧ cent_post p h tr.
Proof.
  unfold x_cent. rewrite np_zeros_N. simpl.
  rewrite setitem_nonneg by (rewrite length_replicate; lia). simpl.
  rewrite setitem_last
    by (intros E; apply (f_equal length) in E;
        rewrite length_insert, length_replicate in E; simpl in E; lia).
  simpl.
  rewrite setitem_nonneg
    by (rewrite !length_insert, length_replicate; lia).
  simpl.
  set (a0 := <[Z.to_nat 1 := cent_seed p h]> _).
  pose (I := λ (k : Z) (a : list F),
    Z.of_nat (length a) = N p + 1 ∧
    a !! 0%nat = Some (x0 p) ∧
    a !! 1%nat = Some (cent_seed p h) ∧
    ∀ i, 1 ≤ i < k →
      ∃ u v, a !! Z.to_nat (i - 1) = Some u ∧ a !! Z.to_nat i = Some v ∧
             a !! Z.to_nat (i + 1) = Some (cent_update p h u v)).
  destruct (for_range_inv I (cent_body p h) 1 (N p) a0) as (tr & Hrun & Htr).
  - lia.
  - subst I a0. simpl. rewrite !length_insert, length_replicate.
    split; [lia|]. split; [|split; [|intros; lia]].
    + rewrite list_lookup_insert_ne by lia.
      destruct (decide (length (<[Z.to_nat 0 := x0 p]>
        (replicate (Z.to_nat (N p + 1)) (of_int 0))) - 1 = 0)%nat) as [E|E].
      * rewrite length_insert, length_replicate in E. lia.
      * rewrite list_lookup_insert_ne by lia.
        apply list_lookup_insert_eq. rewrite length_replicate. lia.
    + apply list_lookup_insert_eq.
      rewrite !length_insert, length_replicate. lia.
  - intros i a Hi (Hlen & Hx0 & Hseed & Hrec).
    destruct (lookup_lt_is_Some_2 a (Z.to_nat (i - 1))) as [u Hu]; [lia|].
    destruct (lookup_lt_is_Some_2 a (Z.to_nat i)) as [v Hv]; [lia|].
    unfold cent_body.
    rewrite (getitem_lookup a (i - 1) u) by (done || lia). simpl.
    rewrite (getitem_lookup a i v) by (done || lia). simpl.
    rewrite setitem_nonneg by lia. eexists; split; [done|].
    subst I. simpl. rewrite length_insert. split; [done|].
    split; [|split].
    + rewrite list_lookup_insert_ne by lia. done.
    + rewrite list_lookup_insert_ne by lia. done.
    + intros j Hj. destruct (decide (j = i)) as [->|Hne].
      * exists u, v. rewrite !list_lookup_insert_ne by lia.
        split; [done|]. split; [done|].
        apply list_lookup_insert_eq. lia.
      * destruct (Hrec j) as (u' & v' & Hu' & Hv' & Hw'); [lia|].
        exists u', v'. rewrite !list_lookup_insert_ne by lia. done.
  - exists tr. split; [done|]. destruct Htr as (Hlen & Hx0 & Hseed & Hrec).
    split; [done|]. split; [by apply getitem_lookup|].
    split; [by apply getitem_lookup|].
    intros i Hi. destruct (Hrec i Hi) as (u & v & Hu & Hv & Hw).
    exists u, v. repeat split; apply getitem_lookup; done || lia.
Qed.

Lemma for_pure {S : Type} (g : S → S) (l : list Z) (s : S) :
  for_ l (λ _ s, Ok (g s)) s = Ok (Nat.iter (length l) g s).
Proof.
  revert s. induction l as [|i l IH]; intros s; [done|].
  change (for_ l (λ _ s, Ok (g s)) (g s)
          = Ok (Nat.iter (Datatypes.S (length l)) g s)).
  by rewrite IH, Nat.iter_succ_r.
Qed.

Lemma back_inner_run a i u :
  getitem a (i - 1) = Ok u →
  for_ (range 0 15) (λ _ xi, back_inner p h a i xi) u
  = Ok (back_fixed_point p h u).
Proof.
  intros Hu. unfold back_inner. rewrite Hu.
  apply (for_pure (back_update p h u)).
Qed.

Lemma x_back_run : ∃ tr, x_back p h = Ok tr ∧ back_post p h tr.
Proof.
  unfold x_back. rewrite np_zeros_N. simpl.
  rewrite setitem_nonneg by (rewrite length_replicate; lia). simpl.
  rewrite setitem_last
    by (intros E; apply (f_equal length) in E;
        rewrite length_insert, length_replicate in E; simpl in E; lia).
  simpl.
  set (a0 := <[_ := xT p]> _).
  pose (I := λ (k : Z) (a : list F),
    Z.of_nat (length a) = N p + 1 ∧
    a !! 0%nat = Some (x0 p) ∧
    a !! Z.to_nat (N p) = Some (xT p) ∧
    ∀ i, 1 ≤ i < k →
      ∃ u, a !! Z.to_nat (i - 1) = Some u ∧
           a !! Z.to_nat i = Some (back_fixed_point p h u)).
  destruct (for_range_inv I (back_body p h) 1 (N p) a0) as (tr & Hrun & Htr).
  - lia.
  - subst I a0. simpl. rewrite !length_insert, length_replicate.
    split; [lia|]. split; [|split; [|intros; lia]].
    + rewrite list_lookup_insert_ne by lia.
      apply list_lookup_insert_eq. rewrite length_replicate. lia.
    + replace (Z.to_nat (N p + 1) - 1)%nat with (Z.to_nat (N p)) by lia.
      apply list_lookup_insert_eq.
      rewrite length_insert, length_replicate. lia.
  - intros i a Hi (Hlen & Hx0 & HxT & Hrec).
    destruct (lookup_lt_is_Some_2 a (Z.to_nat (i - 1))) as [u Hu]; [lia|].
    assert (getitem a (i - 1) = Ok u) as Hget
      by (apply getitem_lookup; done || lia).
    unfold back_body.
    rewrite Hget, bind_Ok, (back_inner_run a i u Hget), bind_Ok.
    rewrite setitem_nonneg by lia. eexists; split; [done|].
    subst I. simpl. rewrite length_insert. split; [done|].
    split; [|split].
    + rewrite list_lookup_insert_ne by lia. done.
    + rewrite list_lookup_insert_ne by lia. done.
    + intros j Hj. destruct (decide (j = i)) as [->|Hne].
      * exists u. rewrite list_lookup_insert_ne by lia.
        split; [done|]. apply list_lookup_insert_eq. lia.
      * destruct (Hrec j) as (u' & Hu' & Hv'); [lia|].
        exists u'. rewrite !list_lookup_insert_ne by lia. done.
  - exists tr. split; [done|]. destruct Htr as (Hlen & Hx0 & HxT & Hrec).
    split; [done|]. split; [by apply getitem_lookup|].
    split; [apply getitem_lookup; done || lia|].
    intros i Hi. destruct (Hrec i Hi) as (u & Hu & Hv).
    exists u. split; apply getitem_lookup; done || lia.
Qed.
End Blocks.

(** ** The grid *)

Section Grid.
Context {F : Type} {arith : Arith F}.
Implicit Types (start stop : F) (n i : Z).

Lemma linspace_run start stop n :
  1 ≤ n →
  ∃ t, linspace start stop (n + 1) = Ok t ∧
       Z.of_nat (length t) = n + 1 ∧
       getitem t n = Ok stop ∧
       ∀ i, 0 ≤ i < n → getitem t i = Ok (grid_entry start stop n i).
Proof.
  intros Hn. unfold linspace.
  destruct (Z.ltb_spec (n + 1) 0); [lia|].
  replace (n + 1 - 1) with n by lia.
  destruct (Z.ltb_spec 0 n); [|lia].
  destruct (Z.ltb_spec 1 (n + 1)); [|lia].
  cbv zeta.
  set (y := (λ v, fadd v start) <$> _).
  assert (length y = Z.to_nat (n + 1)) as Hlen.
  { subst y. rewrite length_fmap.
    destruct (feqb _ _); rewrite !length_fmap; unfold range;
      rewrite length_seqZ; lia. }
  assert (∀ i, 0 ≤ i < n + 1 →
            y !! Z.to_nat i = Some (grid_entry start stop n i)) as Hy.
  { intros i Hi. subst y. unfold grid_entry. rewrite list_lookup_fmap.
    destruct (feqb _ _); rewrite !list_lookup_fmap; unfold range;
      rewrite lookup_seqZ_lt by lia; simpl;
      by replace (0 + Z.of_nat (Z.to_nat i)) with i by lia. }
  rewrite setitem_last by (intros E; rewrite E in Hlen; simpl in Hlen; lia).
  eexists; split; [done|]. rewrite length_insert.
  split; [lia|]. split.
  - apply getitem_lookup; [lia|].
    replace (length y - 1)%nat with (Z.to_nat n) by lia.
    apply list_lookup_insert_eq. lia.
  - intros i Hi. apply getitem_lookup; [lia|].
    rewrite list_lookup_insert_ne by lia. apply Hy. lia.
Qed.
End Grid.

(** ** The kernel as a whole *)

Lemma float_int_bound_large : 2 ^ 64 < float_int_bound.
Proof. reflexivity. Qed.

Lemma truediv_fits {F : Type} {arith : Arith F} (x : F) (n : Z) :
  n ≠ 0 → Z.abs n < float_int_bound →
  truediv x n = Ok (fdiv x (of_int n)).
Proof.
  intros Hn Hb. unfold truediv, fits_float.
  destruct (Z.eqb_spec n 0); [done|].
  destruct (Z.ltb_spec (Z.abs n) float_int_bound); [done|lia].
Qed.

Lemma truediv_overflow {F : Type} {arith : Arith F} (x : F) (n : Z) :
  float_int_bound ≤ Z.abs n → truediv x n = Raise OverflowError.
Proof.
  intros Hb. pose proof float_int_bound_large as Hl. unfold truediv, fits_float.
  destruct (Z.eqb_spec n 0) as [->|]; [simpl in Hb; lia|].
  destruct (Z.ltb_spec (Z.abs n) float_int_bound); [lia|done].
Qed.

Section KernelRun.
Context {F : Type} {arith : Arith F} {libm : Libm F}.
Variable p : Params F.

(** For [N >= 1] that fits a float no statement of the kernel raises, and
    the names it binds hold what the blocks leave. *)
Lemma kernel_run :
  1 ≤ N p → N p < float_int_bound →
  ∃ out, kernel p = Ok out ∧
    out_h out = fdiv (T p) (of_int (N p)) ∧
    Z.of_nat (length (out_t out)) = N p + 1 ∧
    getitem (out_t out) (N p) = Ok (T p) ∧
    (∀ i, 0 ≤ i < N p →
       getitem (out_t out) i = Ok (grid_entry (of_int 0) (T p) (N p) i)) ∧
    back_post p (out_h out) (out_back out) ∧
    cent_post p (out_h out) (out_cent out) ∧
    forw_post p (out_h out) (out_forw out).
Proof.
  intros HN HB. unfold kernel.
  rewrite truediv_fits by lia. rewrite bind_Ok.
  destruct (linspace_run (of_int 0) (T p) (N p) HN) as (t & -> & Ht).
  rewrite bind_Ok.
  destruct (x_back_run p (fdiv (T p) (of_int (N p))) HN) as (xb & -> & Hb).
  rewrite bind_Ok.
  destruct (x_cent_run p (fdiv (T p) (of_int (N p))) HN) as (xc & -> & Hc).
  rewrite bind_Ok.
  destruct (x_forw_run p (fdiv (T p) (of_int (N p))) HN) as (xf & -> & Hf).
  rewrite bind_Ok.
  eexists; split; [done|]. simpl. by destruct Ht as (? & ? & ?).
Qed.

(** For [N = 0] the first statement raises. *)
Lemma kernel_zero :
  N p = 0 → kernel p = Raise ZeroDivisionError.
Proof. intros HN. unfold kernel, truediv. by rewrite HN. Qed.
End KernelRun.

Section Schemes.
Context {F : Type} {arith : Arith F} {libm : Libm F}.
Implicit Types (p : Params F) (out : Outputs F) (i : Z).

(** What a run that returned has executed. *)
Lemma kernel_inv p out :
  kernel p = Ok out →
  truediv (T p) (N p) = Ok (out_h out) ∧
  linspace (of_int 0) (T p) (N p + 1) = Ok (out_t out) ∧
  x_back p (out_h out) = Ok (out_back out) ∧
  x_cent p (out_h out) = Ok (out_cent out) ∧
  x_forw p (out_h out) = Ok (out_forw out).
Proof.
  unfold kernel.
  destruct (truediv (T p) (N p)) as [h|]; [|done]. rewrite bind_Ok.
  destruct (linspace _ _ _) as [t|]; [|done]. rewrite bind_Ok.
  destruct (x_back p h) as [xb|] eqn:Hb; [|done]. rewrite bind_Ok.
  destruct (x_cent p h) as [xc|] eqn:Hc; [|done]. rewrite bind_Ok.
  destruct (x_forw p h) as [xf|] eqn:Hf; [|done]. rewrite bind_Ok.
  intros [= <-]. simpl. auto.
Qed.

(** C4. For every parameter set with [N >= 1], below [2**1024 - 2**970]
    where [h = T / N] raises [OverflowError], the kernel returns, and its
    forward trajectory has [trajectory[0] = x0] and
    [trajectory[i + 1] = trajectory[i] + h * f(trajectory[i])] for
    [i = 0 .. N - 1], with [h = T / N] and [f(x) = -lam * x + x**alpha].
    Run with any other [xT], the kernel returns the same forward
    trajectory: it is a function of [lam], [alpha], [T], [x0] and [N]
    only. *)
Theorem forward_scheme p :
  1 ≤ N p → N p < float_int_bound →
  ∃ out, kernel p = Ok out ∧
    let h := fdiv (T p) (of_int (N p)) in
    getitem (out_forw out) 0 = Ok (x0 p) ∧
    (∀ i, 0 ≤ i < N p →
       ∃ v, getitem (out_forw out) i = Ok v ∧
            getitem (out_forw out) (i + 1)
            = Ok (fadd v (fmul h (fadd (fmul (fneg (lam p)) v)
                                       (fpow v (alpha p)))))) ∧
    (∀ w, ∃ out', kernel (with_xT p w) = Ok out' ∧
                  out_forw out' = out_forw out).
Proof.
  intros HN HB.
  destruct (kernel_run p HN HB) as (out & Hk & Hh & _ & _ & _ & _ & _ & Hf).
  exists out. split; [done|]. cbv zeta. rewrite <- Hh.
  destruct Hf as (_ & Hx0 & Hrec). split; [done|]. split; [exact Hrec|].
  intros w.
  destruct (kernel_run (with_xT p w) HN HB) as (out' & Hk' & Hh' & _).
  exists out'. split; [done|].
  apply kernel_inv in Hk as (_ & _ & _ & _ & Hforw).
  apply kernel_inv in Hk' as (_ & _ & _ & _ & Hforw').
  rewrite Hh in Hforw. rewrite Hh' in Hforw'.
  change (x_forw p (fdiv (T p) (of_int (N p))) = Ok (out_forw out'))
    in Hforw'.
  congruence.
Qed.

(** C5. For every parameter set with [N >= 1], below [2**1024 - 2**970]
    where [h = T / N] raises [OverflowError], the grid and the three
    trajectories have [N + 1] entries each, and every index [0 .. N] reads
    an entry of each of them. *)
Theorem trajectories_length p :
  1 ≤ N p → N p < float_int_bound →
  ∃ out, kernel p = Ok out ∧
    Z.of_nat (length (out_t out)) = N p + 1 ∧
    Z.of_nat (length (out_back out)) = N p + 1 ∧
    Z.of_nat (length (out_cent out)) = N p + 1 ∧
    Z.of_nat (length (out_forw out)) = N p + 1 ∧
    ∀ i, 0 ≤ i ≤ N p →
      ∃ ti bi ci fi,
        getitem (out_t out) i = Ok ti ∧
        getitem (out_back out) i = Ok bi ∧
        getitem (out_cent out) i = Ok ci ∧
        getitem (out_forw out) i = Ok fi.
Proof.
  intros HN HB.
  destruct (kernel_run p HN HB)
    as (out & Hk & _ & Ht & _ & _ & (Hb & _) & (Hc & _) & (Hf & _)).
  exists out. repeat (split; [done|]).
  intros i Hi.
  destruct (lookup_lt_is_Some_2 (out_t out) (Z.to_nat i)) as [ti ?]; [lia|].
  destruct (lookup_lt_is_Some_2 (out_back out) (Z.to_nat i)) as [bi ?];
    [lia|].
  destruct (lookup_lt_is_Some_2 (out_cent out) (Z.to_nat i)) as [ci ?];
    [lia|].
  destruct (lookup_lt_is_Some_2 (out_forw out) (Z.to_nat i)) as [fi ?];
    [lia|].
  exists ti, bi, ci, fi. repeat split; apply getitem_lookup; done || lia.
Qed.

(** C2. For every parameter set with [N >= 1], below [2**1024 - 2**970]
    where [h = T / N] raises [OverflowError], the kernel returns, and each
    interior entry [x_back[i]], [i = 1 .. N - 1], is the update
    [y -> (x_back[i - 1] + h * y**alpha) / (1 + h * lam)] applied fifteen
    times to [y = x_back[i - 1]], where [x_back[i - 1]] is the entry of
    the finished trajectory. *)
Theorem backward_interior p :
  1 ≤ N p → N p < float_int_bound →
  ∃ out, kernel p = Ok out ∧
    let h := fdiv (T p) (of_int (N p)) in
    ∀ i, 1 ≤ i < N p →
      ∃ u, getitem (out_back out) (i - 1) = Ok u ∧
           getitem (out_back out) i
           = Ok (Nat.iter 15
                   (λ y, fdiv (fadd u (fmul h (fpow y (alpha p))))
                              (fadd (of_int 1) (fmul h (lam p))))
                   u).
Proof.
  intros HN HB.
  destruct (kernel_run p HN HB) as (out & Hk & Hh & _ & _ & _ & Hb & _).
  exists out. split; [done|]. cbv zeta. rewrite <- Hh.
  destruct Hb as (_ & _ & _ & Hrec). exact Hrec.
Qed.

(** C3. For every parameter set with [N >= 1], below [2**1024 - 2**970]
    where [h = T / N] raises [OverflowError], the kernel returns, and the
    central trajectory has [trajectory[1] = x0 * exp(-lam * h)], the value
    stored before the loop, and
    [trajectory[i + 1] = trajectory[i - 1] + 2 * h * f(trajectory[i])] for
    [i = 1 .. N - 1], with [h = T / N] and [f(x) = -lam * x + x**alpha]. *)
Theorem central_seed_and_recurrence p :
  1 ≤ N p → N p < float_int_bound →
  ∃ out, kernel p = Ok out ∧
    let h := fdiv (T p) (of_int (N p)) in
    getitem (out_cent out) 1
    = Ok (fmul (x0 p) (fexp (fmul (fneg (lam p)) h))) ∧
    (∀ i, 1 ≤ i < N p →
       ∃ u v, getitem (out_cent out) (i - 1) = Ok u ∧
              getitem (out_cent out) i = Ok v ∧
              getitem (out_cent out) (i + 1)
              = Ok (fadd u (fmul (fmul (of_int 2) h)
                                 (fadd (fmul (fneg (lam p)) v)
                                       (fpow v (alpha p)))))).
Proof.
  intros HN HB.
  destruct (kernel_run p HN HB) as (out & Hk & Hh & _ & _ & _ & _ & Hc & _).
  exists out. split; [done|]. cbv zeta. rewrite <- Hh.
  destruct Hc as (_ & _ & Hseed & Hrec). split; [done|]. exact Hrec.
Qed.
End Schemes.

(** ** The right end of the central trajectory *)

Section CentralEnd.
Context {F : Type} {arith : Arith F} {libm : Libm F}.
Variable p : Params F.
Variable h : F.
Hypothesis N_pos : 1 ≤ N p.
Implicit Types (tr : list F) (i : Z).

Lemma getitem_Ok_lookup (a : list F) i v :
  0 ≤ i → getitem a i = Ok v → a !! Z.to_nat i = Some v.
Proof.
  intros Hi. unfold getitem, index.
  destruct (Z.ltb_spec i 0); [lia|].
  destruct (_ || _); [done|]. rewrite bind_Ok.
  destruct (a !! Z.to_nat i); [|done]. by intros [= ->].
Qed.

(** For [N >= 2] the last pass of the loop, [i = N - 1], stores into
    [x_cent[N]]: the entry holds the value of the recurrence. *)
Lemma cent_post_last tr :
  2 ≤ N p → cent_post p h tr →
  ∃ u v, getitem tr (N p - 2) = Ok u ∧ getitem tr (N p - 1) = Ok v ∧
         getitem tr (N p) = Ok (cent_update p h u v).
Proof.
  intros HN (_ & _ & _ & Hrec).
  destruct (Hrec (N p - 1)) as (u & v & Hu & Hv & Hw); [lia|].
  exists u, v.
  replace (N p - 1 - 1) with (N p - 2) in Hu by lia.
  replace (N p - 1 + 1) with (N p) in Hw by lia. done.
Qed.

(** [cent_post] determines the trajectory. *)
Lemma cent_post_unique tr tr' :
  cent_post p h tr → cent_post p h tr' → tr = tr'.
Proof.
  intros (Hlen & Hx0 & Hseed & Hrec) (Hlen' & Hx0' & Hseed' & Hrec').
  apply list_eq. intros k.
  induction k as [k IH] using lt_wf_ind.
  destruct (decide (k = 0%nat)) as [->|Hk0].
  { apply (getitem_Ok_lookup _ 0) in Hx0, Hx0'; [|lia..].
    change (Z.to_nat 0) with 0%nat in Hx0, Hx0'. congruence. }
  destruct (decide (k = 1%nat)) as [->|Hk1].
  { apply (getitem_Ok_lookup _ 1) in Hseed, Hseed'; [|lia..].
    change (Z.to_nat 1) with 1%nat in Hseed, Hseed'. congruence. }
  destruct (decide (Z.of_nat k ≤ N p)) as [Hle|Hgt].
  - destruct (Hrec (Z.of_nat k - 1)) as (u & v & Hu & Hv & Hw); [lia|].
    destruct (Hrec' (Z.of_nat k - 1)) as (u' & v' & Hu' & Hv' & Hw');
      [lia|].
    apply getitem_Ok_lookup in Hu, Hv, Hw, Hu', Hv', Hw'; [|lia..].
    replace (Z.to_nat (Z.of_nat k - 1 + 1)) with k in Hw, Hw' by lia.
    assert (u = u') as <-.
    { pose proof (IH (Z.to_nat (Z.of_nat k - 1 - 1))) as E.
      rewrite Hu, Hu' in E. by injection E; [|lia]. }
    assert (v = v') as <-.
    { pose proof (IH (Z.to_nat (Z.of_nat k - 1))) as E.
      rewrite Hv, Hv' in E. by injection E; [|lia]. }
    congruence.
  - rewrite !lookup_ge_None_2 by lia. done.
Qed.

(** The value stored by [x_cent[-1] = xT] never reaches the result: with
    any other [xT] the block returns the same trajectory. *)
Lemma x_cent_with_xT (w : F) : x_cent (with_xT p w) h = x_cent p h.
Proof.
  destruct (x_cent_run p h N_pos) as (tr & -> & Htr).
  destruct (x_cent_run (with_xT p w) h N_pos) as (tr' & -> & Htr').
  f_equal. by apply cent_post_unique.
Qed.
End CentralEnd.

Section Runs.
Context {F : Type} {arith : Arith F} {libm : Libm F}.
Implicit Types (p : Params F) (out : Outputs F) (i : Z).

(** The backward block pins both ends. *)
Lemma backward_endpoints p :
  1 ≤ N p → N p < float_int_bound →
  ∃ out, kernel p = Ok out ∧
    getitem (out_back out) 0 = Ok (x0 p) ∧
    getitem (out_back out) (N p) = Ok (xT p).
Proof.
  intros HN HB.
  destruct (kernel_run p HN HB)
    as (out & Hk & _ & _ & _ & _ & (_ & Hx0 & HxT & _) & _).
  by exists out.
Qed.

(** For [N >= 2] the right end of the central trajectory is the value of
    the recurrence at [i = N - 1], and the kernel returns the same central
    trajectory whatever [xT] is. *)
Lemma central_right_end p :
  2 ≤ N p → N p < float_int_bound →
  ∃ out, kernel p = Ok out ∧
    (∃ u v, getitem (out_cent out) (N p - 2) = Ok u ∧
            getitem (out_cent out) (N p - 1) = Ok v ∧
            getitem (out_cent out) (N p)
            = Ok (cent_update p (out_h out) u v)) ∧
    ∀ w, ∃ out', kernel (with_xT p w) = Ok out' ∧
                 out_cent out' = out_cent out.
Proof.
  intros HN HB. assert (1 ≤ N p) as HN1 by lia.
  destruct (kernel_run p HN1 HB) as (out & Hk & Hh & _ & _ & _ & _ & Hc & _).
  exists out. split; [done|]. split; [by apply cent_post_last|].
  intros w.
  destruct (kernel_run (with_xT p w) HN1 HB) as (out' & Hk' & Hh' & _).
  exists out'. split; [done|].
  apply kernel_inv in Hk as (_ & _ & _ & Hcent & _).
  apply kernel_inv in Hk' as (_ & _ & _ & Hcent' & _).
  rewrite Hh in Hcent. rewrite Hh' in Hcent'.
  change (N (with_xT p w)) with (N p) in Hcent'.
  change (T (with_xT p w)) with (T p) in Hcent'.
  rewrite x_cent_with_xT in Hcent' by done. congruence.
Qed.

(** C10. When [N = 1] the kernel returns and the central trajectory is
    [[x0, x0 * exp(-lam * h)]]: the store [x_cent[-1] = xT] writes index 1,
    the store of the seed writes index 1 after it, and [range(1, N)] is
    empty.  Its last entry is the seed, so it is not [xT] whenever the two
    differ. *)
Theorem central_single_interval p :
  N p = 1 →
  ∃ out, kernel p = Ok out ∧
    let h := fdiv (T p) (of_int (N p)) in
    let seed := fmul (x0 p) (fexp (fmul (fneg (lam p)) h)) in
    setitem [x0 p; of_int 0] (-1) (xT p) = Ok [x0 p; xT p] ∧
    setitem [x0 p; xT p] 1 seed = Ok [x0 p; seed] ∧
    range 1 (N p) = [] ∧
    out_cent out = [x0 p; seed] ∧
    getitem (out_cent out) (N p) = Ok seed ∧
    (seed ≠ xT p → getitem (out_cent out) (N p) ≠ Ok (xT p)).
Proof.
  intros HN. assert (1 ≤ N p) as HN1 by lia.
  assert (N p < float_int_bound) as HB
    by (pose proof float_int_bound_large; lia).
  destruct (kernel_run p HN1 HB) as (out & Hk & Hh & _).
  exists out. split; [done|]. cbv zeta.
  apply kernel_inv in Hk as (_ & _ & _ & Hcent & _).
  rewrite Hh in Hcent. unfold x_cent in Hcent.
  rewrite HN in *. injection Hcent as <-.
  repeat split; try reflexivity.
  intros Hne [= E]. done.
Qed.

End Runs.

(** ** The grid in the two arithmetics *)

Lemma forallb_Forall {A : Type} (f : A → bool) (l : list A) :
  forallb f l = true → Forall (λ x, f x = true) l.
Proof.
  induction l as [|x l IH]; [constructor|]. cbn [forallb].
  intros (Hx & Hl)%andb_prop. constructor; auto.
Qed.

(** Two floats that are equal have the same bits. *)
Lemma float_neq (x y : float) : Prim2SF x ≠ Prim2SF y → x ≠ y.
Proof. intros Hne ->. done. Qed.

(** In binary64, [T = 1.0] and [N = 3]: the grid is
    [[0, 0.3333333333333333, 0.6666666666666666, 1]] and
    [h = 0.3333333333333333], but [1 - 0.6666666666666666] is
    [0.33333333333333337], one unit in the last place above [h]. *)
Lemma grid_binary64_thirds :
  truediv 1%float 3 = Ok 0x1.5555555555555p-2%float ∧
  linspace (of_int 0) 1%float (3 + 1)
  = Ok [0; 0x1.5555555555555p-2; 0x1.5555555555555p-1; 1]%float ∧
  fsub 1%float 0x1.5555555555555p-1%float = 0x1.5555555555556p-2%float.
Proof. repeat split; vm_compute; reflexivity. Qed.

(** In binary64 with the default [T = 1.0] and [N = 200]: [h = 0.005],
    [t[2] = 0.01] and [t[3] = 0.015], but [0.015 - 0.01] is
    [0.004999999999999999], one unit in the last place below [h]. *)
Lemma grid_binary64_default :
  truediv 1%float 200 = Ok 0x1.47ae147ae147bp-8%float ∧
  (∃ t, linspace (of_int 0) 1%float (200 + 1) = Ok t ∧
        getitem t 2 = Ok 0x1.47ae147ae147bp-7%float ∧
        getitem t 3 = Ok 0x1.eb851eb851eb8p-7%float) ∧
  fsub 0x1.eb851eb851eb8p-7%float 0x1.47ae147ae147bp-7%float
  = 0x1.47ae147ae147ap-8%float.
Proof.
  split; [vm_compute; reflexivity|]. split; [|vm_compute; reflexivity].
  destruct (linspace (of_int 0) 1%float (200 + 1)) as [t|e] eqn:Ht;
    [|vm_compute in Ht; discriminate].
  exists t. split; [reflexivity|].
  vm_compute in Ht. injection Ht as <-.
  split; vm_compute; reflexivity.
Qed.


(** In binary64 with [T = 1e-323] and [N = 4] the step [T / N] underflows to
    zero, [np.linspace] takes its other branch and the grid is
    [[0, 0, 5e-324, 1e-323, 1e-323]]: it is not strictly increasing, though
    [T > 0]. *)
Lemma grid_binary64_tiny :
  (0 <? 0x1p-1073)%float = true ∧
  truediv 0x1p-1073%float 4 = Ok 0%float ∧
  linspace (of_int 0) 0x1p-1073%float (4 + 1)
  = Ok [0; 0; 0x1p-1074; 0x1p-1073; 0x1p-1073]%float ∧
  (0 <? 0)%float = false.
Proof. repeat split; vm_compute; reflexivity. Qed.

Lemma uniform_grid_binary64_tiny : ¬ uniform_grid 0x1p-1073%float 4.
Proof.
  intros (h & t & _ & Ht & _ & _ & Hstep).
  destruct grid_binary64_tiny as (_ & _ & Ht' & _).
  rewrite Ht' in Ht. injection Ht as <-.
  destruct (Hstep 0) as (u & v & Hu & Hv & Hlt & _); [lia|].
  vm_compute in Hu, Hv. injection Hu as <-. injection Hv as <-.
  vm_compute in Hlt. discriminate.
Qed.

(** [x - 0.0] is [x], also for a zero of either sign, an infinity and NaN. *)
Lemma sub_zero_binary64 (x : float) : (x - 0)%float = x.
Proof.
  apply Prim2SF_inj. rewrite sub_spec.
  change (Prim2SF 0) with (S754_zero false).
  destruct (Prim2SF x) as [[]| | |]; reflexivity.
Qed.

(** A finite float is a zero or has a mantissa and an exponent. *)
Lemma is_finite_SF (x : float) :
  is_finite x = true →
  (∃ s, Prim2SF x = S754_zero s) ∨ (∃ s m e, Prim2SF x = S754_finite s m e).
Proof.
  unfold is_finite, is_nan, is_infinity.
  rewrite !FloatAxioms.eqb_spec, abs_spec.
  change (Prim2SF infinity) with (S754_infinity false).
  destruct (Prim2SF x) as [s|s| |s m e]; eauto.
  - destruct s; discriminate.
  - discriminate.
Qed.

(** In binary64 the first grid point is [0.0] whenever the step [T / N] is
    finite, in either branch of [np.linspace]. *)
Lemma grid_entry_0_binary64 (T : float) (N : Z) :
  is_finite (T / float_of_Z N)%float = true →
  grid_entry (of_int 0) T N 0 = 0%float.
Proof.
  intros Hfin. unfold grid_entry.
  cbn [of_int fsub fdiv fmul fadd feqb binary64].
  change (float_of_Z 0) with 0%float.
  rewrite sub_zero_binary64.
  apply is_finite_SF in Hfin.
  apply Prim2SF_inj.
  destruct (T / float_of_Z N =? 0)%float eqn:Hz.
  - rewrite add_spec, mul_spec, div_spec.
    rewrite FloatAxioms.eqb_spec, div_spec in Hz.
    change (Prim2SF 0) with (S754_zero false) in *.
    destruct (Prim2SF T) as [s|s| |s m e],
             (Prim2SF (float_of_Z N)) as [s'|s'| |s' m' e'];
      try discriminate; try (destruct s; discriminate);
      try (destruct s, s'; discriminate);
      try (destruct s, s'; reflexivity).
  - rewrite add_spec, mul_spec.
    change (Prim2SF 0) with (S754_zero false).
    destruct Hfin as [[s ->]|(s & m & e & ->)]; destruct s; reflexivity.
Qed.

Lemma rounded_grid_check_sound (T : float) (N : Z) (tol : float) :
  rounded_grid_check T N tol = true → rounded_grid T N tol.
Proof.
  unfold rounded_grid_check, rounded_grid.
  destruct (truediv T N) as [h|e]; [|done].
  destruct (linspace (of_int 0) T (N + 1)) as [t|e]; [|done].
  destruct (getitem t 0) as [first|e] eqn:H0; [|done].
  destruct (getitem t N) as [last|e] eqn:HN; [|done].
  intros ((Hfirst & Hlast)%andb_prop & Hall)%andb_prop.
  apply Leibniz.eqb_spec in Hfirst, Hlast. subst first last.
  exists h, t. do 4 (split; [done|]). intros i Hi.
  apply forallb_Forall in Hall. rewrite Forall_forall in Hall.
  specialize (Hall i). unfold range in Hall.
  rewrite elem_of_seqZ in Hall. specialize (Hall ltac:(lia)).
  destruct (getitem t i) as [u|e]; [|done].
  destruct (getitem t (i + 1)) as [v|e]; [|done].
  apply andb_prop in Hall as (Hlt & Htol). by exists u, v.
Qed.

(** With [T = 1.0] and each [N] the slider offers, the binary64 grid
    increases strictly from 0 to [T] and consecutive points differ by [h]
    up to [2**-53]. *)
Lemma rounded_grid_slider (N : Z) :
  slider_N N = true → rounded_grid 1%float N 0x1p-53%float.
Proof.
  intros Hs. apply rounded_grid_check_sound.
  assert (forallb (λ n, if slider_N n
                        then rounded_grid_check 1%float n 0x1p-53%float
                        else true)
                  (range 0 501) = true) as Hall
    by (vm_compute; reflexivity).
  apply forallb_Forall in Hall. rewrite Forall_forall in Hall.
  specialize (Hall N). unfold range in Hall. rewrite elem_of_seqZ in Hall.
  assert (0 ≤ N < 0 + (501 - 0)) as HN.
  { unfold slider_N in Hs. apply andb_prop in Hs as (Hs & _).
    apply andb_prop in Hs as (Hlo & Hhi). apply Z.leb_le in Hlo, Hhi. lia. }
  specialize (Hall HN). by rewrite Hs in Hall.
Qed.

Section RealGrid.
Local Open Scope R_scope.
Variable T : R.
Variable N : Z.
Hypothesis T_pos : 0 < T.
Hypothesis N_pos : (1 ≤ N)%Z.
Hypothesis N_fits : (N < float_int_bound)%Z.

Lemma IZR_N_pos : 0 < IZR N.
Proof. apply (IZR_lt 0). lia. Qed.

Lemma real_step_pos : 0 < T / IZR N.
Proof. apply Rdiv_lt_0_compat; [done|apply IZR_N_pos]. Qed.

Lemma real_grid_entry (i : Z) :
  grid_entry (of_int 0) T N i = IZR i * (T / IZR N).
Proof.
  unfold grid_entry. simpl.
  replace (T - 0) with T by lra.
  destruct (Req_dec_T (T / IZR N) 0) as [E|_].
  - pose proof real_step_pos. lra.
  - lra.
Qed.

(** In exact arithmetic the grid is as the specification describes it. *)
Lemma uniform_grid_real : uniform_grid T N.
Proof.
  pose proof IZR_N_pos as HN. pose proof real_step_pos as Hs.
  destruct (linspace_run (of_int 0) T N N_pos) as (t & Ht & _ & HtN & Hti).
  exists (T / IZR N), t. split.
  { rewrite truediv_fits by lia. reflexivity. }
  split; [done|]. split.
  { rewrite Hti by lia. rewrite real_grid_entry. simpl. f_equal. lra. }
  split; [done|]. intros i Hi.
  exists (IZR i * (T / IZR N)).
  assert (∃ v, getitem t (i + 1) = Ok v ∧
               v = IZR i * (T / IZR N) + T / IZR N) as (v & Hv & ->).
  { destruct (decide (i + 1 = N)%Z) as [E|E].
    - exists T. rewrite E. split; [done|].
      assert (IZR i = IZR N - 1) as -> by (rewrite <- E, plus_IZR; lra).
      field. lra.
    - exists (IZR (i + 1) * (T / IZR N)). split.
      + rewrite Hti by lia. by rewrite real_grid_entry.
      + rewrite plus_IZR. lra. }
  eexists. split; [rewrite Hti by lia; by rewrite real_grid_entry|].
  split; [done|]. simpl. split; [|lra].
  destruct (Rlt_dec _ _) as [_|Hn]; [done|]. lra.
Qed.
End RealGrid.



(** ** A run where the right end of the central trajectory is not [xT] *)

Lemma x_cent_two_steps {F : Type} {arith : Arith F} {libm : Libm F}
    (p : Params F) (h : F) :
  N p = 2 →
  x_cent p h
  = Ok [x0 p; cent_seed p h; cent_update p h (x0 p) (cent_seed p h)].
Proof. intros HN. unfold x_cent. rewrite HN. reflexivity. Qed.

(** At [two_step_params], in exact arithmetic: [h = 1/2], the backward
    trajectory starts at [x0 = 1] and ends at [xT = 0], the central
    trajectory starts at [x0 = 1] and is [[1, 1, 2]]: the pass [i = 1] of
    the loop stores [x_cent[0] + 2 * h * f(x_cent[1]) = 2] into [x_cent[2]],
    over the [xT = 0] stored before the loop. *)
Lemma central_right_end_two_steps :
  ∃ out : Outputs R, kernel two_step_params = Ok out ∧
    getitem (out_back out) 0 = Ok (x0 two_step_params) ∧
    getitem (out_back out) (N two_step_params) = Ok (xT two_step_params) ∧
    getitem (out_cent out) 0 = Ok (x0 two_step_params) ∧
    out_cent out = [1; 1; 2]%R ∧
    getitem (out_cent out) (N two_step_params) = Ok 2%R ∧
    2%R ≠ xT two_step_params.
Proof.
  assert (1 ≤ N (two_step_params (F := R))) as HN by (simpl; lia).
  assert (N (two_step_params (F := R)) < float_int_bound) as HB
    by reflexivity.
  destruct (kernel_run two_step_params HN HB)
    as (out & Hk & Hh & _ & _ & _ & Hb & Hc & _).
  exists out. split; [done|].
  destruct Hb as (_ & Hb0 & HbN & _). split; [done|]. split; [done|].
  destruct Hc as (_ & Hc0 & _). split; [done|].
  apply kernel_inv in Hk as (_ & _ & _ & Hcent & _).
  rewrite x_cent_two_steps, Hh in Hcent by done.
  assert (cent_seed two_step_params
            (fdiv (T two_step_params) (of_int (N two_step_params)))
          = 1%R) as Hseed.
  { unfold cent_seed. simpl.
    replace (- 0 * (1 / 2))%R with 0%R by lra. rewrite exp_0. lra. }
  assert (cent_update two_step_params
            (fdiv (T two_step_params) (of_int (N two_step_params)))
            (x0 two_step_params) 1%R
          = 2%R) as Hlast.
  { unfold cent_update, f. simpl.
    unfold Rpower. rewrite ln_1, Rmult_0_r, exp_0. lra. }
  rewrite Hseed, Hlast in Hcent. injection Hcent as <-.
  repeat split; try reflexivity. simpl. lra.
Qed.

(** The same run in binary64, for every libm that returns [exp(-0.0) = 1]
    and [pow(1, 2) = 1], as C99 Annex F requires. *)
Lemma central_right_end_binary64 (libm : Libm float) :
  fexp (-0)%float = 1%float →
  fpow 1%float 2%float = 1%float →
  ∃ out : Outputs float, kernel two_step_params = Ok out ∧
    out_cent out = [1; 1; 2]%float ∧
    xT two_step_params = 0%float.
Proof.
  intros Hexp Hpow.
  assert (1 ≤ N (two_step_params (F := float))) as HN by (simpl; lia).
  assert (N (two_step_params (F := float)) < float_int_bound) as HB
    by reflexivity.
  destruct (kernel_run two_step_params HN HB) as (out & Hk & Hh & _).
  exists out. split; [done|]. split; [|reflexivity].
  apply kernel_inv in Hk as (_ & _ & _ & Hcent & _).
  rewrite x_cent_two_steps in Hcent by done. injection Hcent as <-.
  rewrite Hh. unfold cent_update, f, cent_seed.
  destruct libm as [pow exp]. vm_compute in Hexp, Hpow.
  vm_compute. rewrite Hexp. vm_compute. rewrite Hpow. vm_compute.
  reflexivity.
Qed.

(** In exact arithmetic with [lam = 0], [x0 > 0] and [T > 0] no entry of the
    central trajectory is below [x0]: the recurrence adds
    [2 * h * x_cent[i]**alpha > 0] to [x_cent[i - 1]]. *)
Lemma central_growth (p : Params R) :
  1 ≤ N p → N p < float_int_bound →
  lam p = 0%R → (0 < x0 p)%R → (0 < T p)%R →
  ∃ out, kernel p = Ok out ∧
    ∀ i, 0 ≤ i ≤ N p →
      ∃ v, getitem (out_cent out) i = Ok v ∧ (x0 p <= v)%R.
Proof.
  intros HN HB Hlam Hx0 HT.
  destruct (kernel_run p HN HB) as (out & Hk & Hh & _ & _ & _ & _ & Hc & _).
  exists out. split; [done|].
  destruct Hc as (Hlen & H0 & H1 & Hrec).
  assert (0 < out_h out)%R as Hhpos.
  { rewrite Hh. simpl. apply Rdiv_lt_0_compat; [done|].
    apply (IZR_lt 0). lia. }
  assert (∀ k : nat, Z.of_nat k ≤ N p →
            ∃ v, out_cent out !! k = Some v ∧ (x0 p <= v)%R) as Hall.
  { intros k. induction k as [k IH] using lt_wf_ind. intros Hkle.
    destruct (decide (k = 0%nat)) as [->|Hk0].
    { apply (getitem_Ok_lookup _ 0) in H0; [|lia].
      exists (x0 p). split; [done|lra]. }
    destruct (decide (k = 1%nat)) as [->|Hk1].
    { apply (getitem_Ok_lookup _ 1) in H1; [|lia].
      exists (cent_seed p (out_h out)). split; [done|].
      unfold cent_seed. simpl. rewrite Hlam.
      replace (- 0 * out_h out)%R with 0%R by lra. rewrite exp_0. lra. }
    destruct (Hrec (Z.of_nat k - 1)) as (u & v & Hu & Hv & Hw); [lia|].
    apply getitem_Ok_lookup in Hu, Hw; [|lia..].
    replace (Z.to_nat (Z.of_nat k - 1 + 1)) with k in Hw by lia.
    destruct (IH (Z.to_nat (Z.of_nat k - 1 - 1))) as (u' & Hu' & Hle);
      [lia|lia|].
    assert (u' = u) as -> by congruence.
    eexists. split; [exact Hw|].
    unfold cent_update, f. simpl. rewrite Hlam.
    pose proof (exp_pos (alpha p * ln v)) as Hpow.
    fold (Rpower v (alpha p)) in Hpow. nra. }
  intros i Hi. destruct (Hall (Z.to_nat i)) as (v & Hv & Hle); [lia|].
  exists v. split; [|done]. apply getitem_lookup; [lia|done].
Qed.

(** At [fifty_step_params] the right end of the central trajectory is at
    least 1, and [xT] is 0. *)
Lemma central_right_end_fifty_steps :
  ∃ out, kernel fifty_step_params = Ok out ∧
    ∃ v, getitem (out_cent out) (N fifty_step_params) = Ok v ∧
         (1 <= v)%R ∧ v ≠ xT fifty_step_params.
Proof.
  destruct (central_growth fifty_step_params) as (out & Hk & Hall);
    [simpl; lia|reflexivity|reflexivity|simpl; lra|simpl; lra|].
  exists out. split; [done|].
  destruct (Hall 50) as (v & Hv & Hle); [simpl; lia|].
  exists v. simpl in *. split; [done|]. split; lra.
Qed.

(** C1 fails on the central scheme.  At [lam = 0], [alpha = 2], [T = 1],
    [x0 = 1], [xT = 0] the kernel returns, both trajectories start at [x0]
    and the backward one ends at [xT], but the central one does not: with
    [N = 2] it is [[1, 1, 2]], and with [N = 50] its last entry is at least
    1, where [xT] is 0. *)
Theorem central_right_end_not_xT :
  (∃ out : Outputs R, kernel two_step_params = Ok out ∧
     getitem (out_back out) 0 = Ok (x0 two_step_params) ∧
     getitem (out_back out) (N two_step_params) = Ok (xT two_step_params) ∧
     getitem (out_cent out) 0 = Ok (x0 two_step_params) ∧
     out_cent out = [1; 1; 2]%R ∧
     getitem (out_cent out) (N two_step_params) = Ok 2%R ∧
     2%R ≠ xT two_step_params) ∧
  (∃ out : Outputs R, kernel fifty_step_params = Ok out ∧
     ∃ v, getitem (out_cent out) (N fifty_step_params) = Ok v ∧
          (1 <= v)%R ∧ v ≠ xT fifty_step_params).
Proof.
  split.
  - exact central_right_end_two_steps.
  - exact central_right_end_fifty_steps.
Qed.

(** ** The theorems at concrete parameters *)

Lemma forward_scheme_witness :
  1 ≤ N default_params ∧ N default_params < float_int_bound ∧
  ∃ out, kernel default_params = Ok out ∧
         getitem (out_forw out) 0 = Ok (x0 default_params) ∧
         ∀ w, ∃ out', kernel (with_xT default_params w) = Ok out' ∧
                      out_forw out' = out_forw out.
Proof.
  assert (1 ≤ N default_params) as HN by (simpl; lia).
  assert (N default_params < float_int_bound) as HB by reflexivity.
  split; [exact HN|]. split; [exact HB|].
  destruct (forward_scheme default_params HN HB) as (out & Hk & Hx0 & _ & Hw).
  exists out. auto.
Defined.

Lemma trajectories_length_witness :
  1 ≤ N default_params ∧ N default_params < float_int_bound ∧
  ∃ out, kernel default_params = Ok out ∧
         Z.of_nat (length (out_t out)) = 201 ∧
         Z.of_nat (length (out_back out)) = 201 ∧
         Z.of_nat (length (out_cent out)) = 201 ∧
         Z.of_nat (length (out_forw out)) = 201.
Proof.
  assert (1 ≤ N default_params) as HN by (simpl; lia).
  assert (N default_params < float_int_bound) as HB by reflexivity.
  split; [exact HN|]. split; [exact HB|].
  destruct (trajectories_length default_params HN HB)
    as (out & Hk & Ht & Hb & Hc & Hf & _).
  exists out. auto.
Defined.

Lemma backward_interior_witness :
  1 ≤ N default_params ∧ N default_params < float_int_bound ∧
  ∃ out, kernel default_params = Ok out ∧
    ∃ u, getitem (out_back out) 0 = Ok u ∧
         getitem (out_back out) 1
         = Ok (Nat.iter 15
                 (λ y, ((u + 1 / 200 * Rpower y 3) / (1 + 1 / 200 * 7))%R)
                 u).
Proof.
  assert (1 ≤ N default_params) as HN by (simpl; lia).
  assert (N default_params < float_int_bound) as HB by reflexivity.
  split; [exact HN|]. split; [exact HB|].
  destruct (backward_interior default_params HN HB) as (out & Hk & Hrec).
  exists out. split; [exact Hk|].
  apply (Hrec 1). simpl. lia.
Defined.

Lemma central_seed_and_recurrence_witness :
  1 ≤ N default_params ∧ N default_params < float_int_bound ∧
  ∃ out, kernel default_params = Ok out ∧
         getitem (out_cent out) 1 = Ok (1 / 2 * exp (- 7 * (1 / 200)))%R.
Proof.
  assert (1 ≤ N default_params) as HN by (simpl; lia).
  assert (N default_params < float_int_bound) as HB by reflexivity.
  split; [exact HN|]. split; [exact HB|].
  destruct (central_seed_and_recurrence default_params HN HB)
    as (out & Hk & Hseed & _).
  exists out. auto.
Defined.

Lemma central_single_interval_witness :
  N single_interval_params = 1 ∧
  ∃ out, kernel single_interval_params = Ok out ∧
         out_cent out = [1 / 2; 1 / 2 * exp (- 7 * (1 / 1))]%R.
Proof.
  split; [reflexivity|].
  destruct (central_single_interval single_interval_params eq_refl)
    as (out & Hk & _ & _ & _ & Hcent & _).
  exists out. auto.
Defined.

(** * Further properties of the kernel *)

(** ** The trajectories as orbits *)

Section Orbits.
Context {F : Type} {arith : Arith F} {libm : Libm F}.
Variable p : Params F.
Variable h : F.
Implicit Types (tr : list F) (k : nat).

Lemma forw_post_orbit tr :
  forw_post p h tr →
  ∀ k, Z.of_nat k ≤ N p →
    tr !! k = Some (Nat.iter k (forw_step p h) (x0 p)).
Proof.
  intros (_ & Hx0 & Hrec) k. induction k as [|k IH]; intros Hk.
  - by apply (getitem_Ok_lookup _ 0) in Hx0.
  - destruct (Hrec (Z.of_nat k)) as (v & Hv & Hv'); [lia|].
    apply getitem_Ok_lookup in Hv, Hv'; [|lia..].
    rewrite Nat2Z.id in Hv.
    replace (Z.to_nat (Z.of_nat k + 1)) with (Datatypes.S k) in Hv' by lia.
    rewrite IH in Hv by lia. injection Hv as <-. exact Hv'.
Qed.

Lemma back_post_orbit tr :
  back_post p h tr →
  ∀ k, Z.of_nat k < N p →
    tr !! k = Some (Nat.iter k (back_fixed_point p h) (x0 p)).
Proof.
  intros (_ & Hx0 & _ & Hrec) k. induction k as [|k IH]; intros Hk.
  - by apply (getitem_Ok_lookup _ 0) in Hx0.
  - destruct (Hrec (Z.of_nat (Datatypes.S k))) as (u & Hu & Hv); [lia|].
    apply getitem_Ok_lookup in Hu, Hv; [|lia..].
    rewrite Nat2Z.id in Hv.
    replace (Z.to_nat (Z.of_nat (Datatypes.S k) - 1)) with k in Hu by lia.
    rewrite IH in Hu by lia. injection Hu as <-. exact Hv.
Qed.

Lemma cent_post_orbit tr :
  cent_post p h tr →
  ∀ k, Z.of_nat k < N p →
    tr !! k
    = Some (Nat.iter k (cent_step p h) (x0 p, cent_seed p h)).1 ∧
    tr !! Datatypes.S k
    = Some (Nat.iter k (cent_step p h) (x0 p, cent_seed p h)).2.
Proof.
  intros (_ & Hx0 & Hseed & Hrec) k. induction k as [|k IH]; intros Hk.
  - apply (getitem_Ok_lookup _ 0) in Hx0; [|lia].
    apply (getitem_Ok_lookup _ 1) in Hseed; [|lia]. done.
  - destruct IH as (IH1 & IH2); [lia|].
    destruct (Hrec (Z.of_nat (Datatypes.S k))) as (u & v & Hu & Hv & Hw);
      [lia|].
    apply getitem_Ok_lookup in Hu, Hv, Hw; [|lia..].
    rewrite Nat2Z.id in Hv.
    replace (Z.to_nat (Z.of_nat (Datatypes.S k) - 1)) with k in Hu by lia.
    replace (Z.to_nat (Z.of_nat (Datatypes.S k) + 1))
      with (Datatypes.S (Datatypes.S k)) in Hw by lia.
    rewrite IH1 in Hu. rewrite IH2 in Hv.
    injection Hu as <-. injection Hv as <-.
    split; [exact IH2|exact Hw].
Qed.
End Orbits.

Section OrbitTheorems.
Context {F : Type} {arith : Arith F} {libm : Libm F}.
Implicit Types (p : Params F) (k : nat) (i : Z).

(** X2.  The forward trajectory is the orbit of [x0] under one Euler step
    [v -> v + h * f(v)]: entry [k] is the step applied [k] times to [x0],
    for every [k = 0 .. N], whenever [1 <= N < 2**1024 - 2**970]. *)
Theorem forward_orbit p :
  1 ≤ N p → N p < float_int_bound →
  ∃ out, kernel p = Ok out ∧
    ∀ k, Z.of_nat k ≤ N p →
      getitem (out_forw out) (Z.of_nat k)
      = Ok (Nat.iter k (forw_step p (fdiv (T p) (of_int (N p)))) (x0 p)).
Proof.
  intros HN HB.
  destruct (kernel_run p HN HB) as (out & Hk & Hh & _ & _ & _ & _ & _ & Hf).
  exists out. split; [done|]. intros k Hle. rewrite <- Hh.
  apply getitem_lookup; [lia|]. rewrite Nat2Z.id.
  by apply forw_post_orbit.
Qed.

(** X3.  The interior of the backward trajectory is the orbit of [x0] under the
    fifteen-pass map: entry [k] is that map applied [k] times to [x0], for
    every [k = 0 .. N - 1], whenever [1 <= N < 2**1024 - 2**970]; no entry
    before the last depends on [xT]. *)
Theorem backward_orbit p :
  1 ≤ N p → N p < float_int_bound →
  ∃ out, kernel p = Ok out ∧
    ∀ k, Z.of_nat k < N p →
      getitem (out_back out) (Z.of_nat k)
      = Ok (Nat.iter k (back_fixed_point p (fdiv (T p) (of_int (N p))))
                     (x0 p)).
Proof.
  intros HN HB.
  destruct (kernel_run p HN HB) as (out & Hk & Hh & _ & _ & _ & Hb & _).
  exists out. split; [done|]. intros k Hle. rewrite <- Hh.
  apply getitem_lookup; [lia|]. rewrite Nat2Z.id.
  by apply back_post_orbit.
Qed.

(** X4.  Run with another [xT], the kernel returns the backward trajectory with
    its last entry replaced and every other entry as before, whenever
    [1 <= N < 2**1024 - 2**970]. *)
Theorem backward_xT_only_last p (w : F) :
  1 ≤ N p → N p < float_int_bound →
  ∃ out out', kernel p = Ok out ∧ kernel (with_xT p w) = Ok out' ∧
    out_back out' = <[Z.to_nat (N p) := w]> (out_back out).
Proof.
  intros HN HB.
  destruct (kernel_run p HN HB) as (out & Hk & Hh & _ & _ & _ & Hb & _).
  destruct (kernel_run (with_xT p w) HN HB)
    as (out' & Hk' & Hh' & _ & _ & _ & Hb' & _).
  exists out, out'. split; [done|]. split; [done|].
  change (out_h out' = fdiv (T p) (of_int (N p))) in Hh'.
  rewrite Hh in Hb. rewrite Hh' in Hb'.
  set (h := fdiv (T p) (of_int (N p))) in *.
  pose proof (back_post_orbit p h _ Hb) as Ho.
  pose proof (back_post_orbit (with_xT p w) h _ Hb') as Ho'.
  destruct Hb as (Hlen & _ & _ & _). destruct Hb' as (Hlen' & _ & HxT' & _).
  change (N (with_xT p w)) with (N p) in *.
  apply getitem_Ok_lookup in HxT'; [|lia].
  apply list_eq. intros k.
  destruct (decide (k = Z.to_nat (N p))) as [->|Hne].
  - rewrite list_lookup_insert_eq by lia. exact HxT'.
  - rewrite list_lookup_insert_ne by done.
    destruct (decide (Z.of_nat k < N p)) as [Hlt|Hge].
    + rewrite Ho, Ho' by done. reflexivity.
    + rewrite !lookup_ge_None_2 by lia. done.
Qed.

(** X5.  Run with another [xT], the kernel returns the same central trajectory,
    for every [N] with [1 <= N < 2**1024 - 2**970]: no entry of it depends
    on [xT]. *)
Theorem central_ignores_xT p (w : F) :
  1 ≤ N p → N p < float_int_bound →
  ∃ out out', kernel p = Ok out ∧ kernel (with_xT p w) = Ok out' ∧
    out_cent out' = out_cent out.
Proof.
  intros HN HB.
  destruct (kernel_run p HN HB) as (out & Hk & Hh & _).
  destruct (kernel_run (with_xT p w) HN HB) as (out' & Hk' & Hh' & _).
  exists out, out'. split; [done|]. split; [done|].
  apply kernel_inv in Hk as (_ & _ & _ & Hcent & _).
  apply kernel_inv in Hk' as (_ & _ & _ & Hcent' & _).
  rewrite Hh in Hcent. rewrite Hh' in Hcent'.
  change (N (with_xT p w)) with (N p) in Hcent'.
  change (T (with_xT p w)) with (T p) in Hcent'.
  rewrite x_cent_with_xT in Hcent' by done. congruence.
Qed.
End OrbitTheorems.

(** ** Marching is causal *)

Section Prefix.
Context {F : Type} {arith : Arith F} {libm : Libm F}.
Implicit Types (p : Params F) (i : Z).

(** X6.  Two runs with the same [lam], [alpha], [x0] and the same step [h], the
    second on at least as many points ([N <= N'], for instance [T] and [N]
    both doubled), agree on every entry the first one computes: the forward
    and central trajectories on [0 .. N], the backward one on [0 .. N - 1]
    (its entry [N] is [xT] in the first run), whenever
    [1 <= N] and [N' < 2**1024 - 2**970]. *)
Theorem marching_prefix p p' :
  1 ≤ N p → N p ≤ N p' → N p' < float_int_bound →
  lam p' = lam p → alpha p' = alpha p → x0 p' = x0 p →
  fdiv (T p') (of_int (N p')) = fdiv (T p) (of_int (N p)) →
  ∃ out out', kernel p = Ok out ∧ kernel p' = Ok out' ∧
    (∀ i, 0 ≤ i ≤ N p →
       getitem (out_forw out') i = getitem (out_forw out) i) ∧
    (∀ i, 0 ≤ i ≤ N p →
       getitem (out_cent out') i = getitem (out_cent out) i) ∧
    (∀ i, 0 ≤ i < N p →
       getitem (out_back out') i = getitem (out_back out) i).
Proof.
  intros HN Hle HB' Hlam Halpha Hx0 Hstep.
  assert (1 ≤ N p') as HN' by lia.
  assert (N p < float_int_bound) as HB by lia.
  destruct (kernel_run p HN HB)
    as (out & Hk & Hh & _ & _ & _ & Hb & Hc & Hf).
  destruct (kernel_run p' HN' HB')
    as (out' & Hk' & Hh' & _ & _ & _ & Hb' & Hc' & Hf').
  exists out, out'. split; [done|]. split; [done|].
  rewrite Hstep in Hh'. rewrite Hh in Hb, Hc, Hf. rewrite Hh' in Hb', Hc', Hf'.
  set (h := fdiv (T p) (of_int (N p))) in *.
  assert (forw_step p' h = forw_step p h) as Efs.
  { unfold forw_step, f. by rewrite Hlam, Halpha. }
  assert (back_fixed_point p' h = back_fixed_point p h) as Ebf.
  { unfold back_fixed_point, back_update. by rewrite Hlam, Halpha. }
  assert (cent_step p' h = cent_step p h) as Ecs.
  { unfold cent_step, cent_update, f. by rewrite Hlam, Halpha. }
  assert (cent_seed p' h = cent_seed p h) as Eseed.
  { unfold cent_seed. by rewrite Hlam, Hx0. }
  pose proof (forw_post_orbit p h _ Hf) as Of.
  pose proof (forw_post_orbit p' h _ Hf') as Of'.
  pose proof (back_post_orbit p h _ Hb) as Ob.
  pose proof (back_post_orbit p' h _ Hb') as Ob'.
  pose proof (cent_post_orbit p h _ Hc) as Oc.
  pose proof (cent_post_orbit p' h _ Hc') as Oc'.
  rewrite Efs, Hx0 in Of'. rewrite Ebf, Hx0 in Ob'.
  rewrite Ecs, Eseed, Hx0 in Oc'.
  split; [|split].
  - intros i Hi.
    rewrite (getitem_lookup (out_forw out) i _ (proj1 Hi) (Of (Z.to_nat i) ltac:(lia))).
    apply getitem_lookup; [lia|]. apply Of'. lia.
  - intros i Hi. destruct (decide (i = 0)) as [->|Hne].
    + destruct (Oc 0%nat) as (E & _); [lia|].
      destruct (Oc' 0%nat) as (E' & _); [lia|].
      rewrite (getitem_lookup (out_cent out) 0 _ (proj1 Hi) E).
      by apply getitem_lookup.
    + destruct (Oc (Z.to_nat (i - 1))) as (_ & E); [lia|].
      destruct (Oc' (Z.to_nat (i - 1))) as (_ & E'); [lia|].
      replace (Datatypes.S (Z.to_nat (i - 1))) with (Z.to_nat i) in E, E'
        by lia.
      rewrite (getitem_lookup (out_cent out) i _ (proj1 Hi) E).
      by apply getitem_lookup; [lia|].
  - intros i Hi.
    rewrite (getitem_lookup (out_back out) i _ (proj1 Hi) (Ob (Z.to_nat i) ltac:(lia))).
    apply getitem_lookup; [lia|]. apply Ob'. lia.
Qed.
End Prefix.

Lemma marching_prefix_witness :
  1 ≤ N default_params ∧ N default_params ≤ N doubled_params ∧
  N doubled_params < float_int_bound ∧
  ∃ out out', kernel default_params = Ok out ∧
    kernel doubled_params = Ok out' ∧
    ∀ i, 0 ≤ i ≤ 200 →
      getitem (out_forw out') i = getitem (out_forw out) i.
Proof.
  assert (1 ≤ N default_params) as HN by (simpl; lia).
  assert (N default_params ≤ N doubled_params) as Hle by (simpl; lia).
  assert (fdiv (T doubled_params) (of_int (N doubled_params))
          = fdiv (T default_params) (of_int (N default_params))) as Hh
    by (simpl; lra).
  assert (N doubled_params < float_int_bound) as HB by reflexivity.
  split; [exact HN|]. split; [exact Hle|]. split; [exact HB|].
  destruct (marching_prefix default_params doubled_params HN Hle HB
              eq_refl eq_refl eq_refl Hh)
    as (out & out' & Hk & Hk' & Hf & _).
  exists out, out'. auto.
Defined.

Lemma forward_orbit_witness :
  1 ≤ N default_params ∧ N default_params < float_int_bound ∧
  ∃ out, kernel default_params = Ok out ∧
    getitem (out_forw out) 2
    = Ok (forw_step default_params (1 / 200)%R
            (forw_step default_params (1 / 200)%R (1 / 2)%R)).
Proof.
  assert (1 ≤ N default_params) as HN by (simpl; lia).
  assert (N default_params < float_int_bound) as HB by reflexivity.
  split; [exact HN|]. split; [exact HB|].
  destruct (forward_orbit default_params HN HB) as (out & Hk & Horb).
  exists out. split; [exact Hk|].
  apply (Horb 2%nat). simpl. lia.
Defined.

Lemma backward_orbit_witness :
  1 ≤ N default_params ∧ N default_params < float_int_bound ∧
  ∃ out, kernel default_params = Ok out ∧
    getitem (out_back out) 2
    = Ok (back_fixed_point default_params (1 / 200)%R
            (back_fixed_point default_params (1 / 200)%R (1 / 2)%R)).
Proof.
  assert (1 ≤ N default_params) as HN by (simpl; lia).
  assert (N default_params < float_int_bound) as HB by reflexivity.
  split; [exact HN|]. split; [exact HB|].
  destruct (backward_orbit default_params HN HB) as (out & Hk & Horb).
  exists out. split; [exact Hk|].
  apply (Horb 2%nat). simpl. lia.
Defined.

Lemma backward_xT_only_last_witness :
  1 ≤ N default_params ∧ N default_params < float_int_bound ∧
  ∃ out out', kernel default_params = Ok out ∧
    kernel (with_xT default_params 3%R) = Ok out' ∧
    out_back out' = <[200%nat := 3%R]> (out_back out).
Proof.
  assert (1 ≤ N default_params) as HN by (simpl; lia).
  assert (N default_params < float_int_bound) as HB by reflexivity.
  split; [exact HN|]. split; [exact HB|].
  exact (backward_xT_only_last default_params 3%R HN HB).
Defined.

Lemma central_ignores_xT_witness :
  1 ≤ N default_params ∧ N default_params < float_int_bound ∧
  ∃ out out', kernel default_params = Ok out ∧
    kernel (with_xT default_params 3%R) = Ok out' ∧
    out_cent out' = out_cent out.
Proof.
  assert (1 ≤ N default_params) as HN by (simpl; lia).
  assert (N default_params < float_int_bound) as HB by reflexivity.
  split; [exact HN|]. split; [exact HB|].
  exact (central_ignores_xT default_params 3%R HN HB).
Defined.

(** ** The smallest grid and the sidebar's grids *)

Section SmallAndSidebar.
Context {F : Type} {arith : Arith F} {libm : Libm F}.
Implicit Types (p : Params F).

(** X7.  With [N = 1] neither loop of the backward block runs: its trajectory is
    the two boundary values; the forward trajectory is [x0] and one Euler
    step from it. *)
Theorem single_interval_back_forw p :
  N p = 1 →
  ∃ out, kernel p = Ok out ∧
    let h := fdiv (T p) (of_int (N p)) in
    out_back out = [x0 p; xT p] ∧
    out_forw out = [x0 p; fadd (x0 p) (fmul h (f p (x0 p)))].
Proof.
  intros HN. assert (1 ≤ N p) as HN1 by lia.
  assert (N p < float_int_bound) as HB
    by (pose proof float_int_bound_large; lia).
  destruct (kernel_run p HN1 HB) as (out & Hk & Hh & _).
  exists out. split; [done|]. cbv zeta.
  apply kernel_inv in Hk as (_ & _ & Hback & _ & Hforw).
  rewrite Hh in Hback, Hforw. unfold x_back in Hback. unfold x_forw in Hforw.
  rewrite HN in *. injection Hback as <-. injection Hforw as <-.
  split; reflexivity.
Qed.

(** X8.  Every value the sidebar's slider offers for [N] is at least 50, so run
    from the sidebar the kernel returns, whatever the other five values
    are, and each trajectory has between 51 and 501 entries. *)
Theorem sidebar_kernel_returns p :
  slider_N (N p) = true →
  ∃ out, kernel p = Ok out ∧
    51 ≤ Z.of_nat (length (out_t out)) ≤ 501 ∧
    length (out_back out) = length (out_t out) ∧
    length (out_cent out) = length (out_t out) ∧
    length (out_forw out) = length (out_t out).
Proof.
  unfold slider_N. intros Hs.
  apply andb_prop in Hs as (Hs & _). apply andb_prop in Hs as (Hlo & Hhi).
  apply Z.leb_le in Hlo, Hhi.
  destruct (kernel_run p) as (out & Hk & _ & Ht & _ & _ & Hb & Hc & Hf);
    [lia|pose proof float_int_bound_large; lia|].
  destruct Hb as (Hb & _). destruct Hc as (Hc & _). destruct Hf as (Hf & _).
  exists out. split; [done|]. repeat split; lia.
Qed.
End SmallAndSidebar.

Lemma single_interval_back_forw_witness :
  N single_interval_params = 1 ∧
  ∃ out, kernel single_interval_params = Ok out ∧
         out_back out = [1 / 2; 0]%R.
Proof.
  split; [reflexivity|].
  destruct (single_interval_back_forw single_interval_params eq_refl)
    as (out & Hk & Hb & _).
  exists out. auto.
Defined.

Lemma sidebar_kernel_returns_witness :
  slider_N (N default_params) = true ∧
  ∃ out, kernel default_params = Ok out.
Proof.
  split; [reflexivity|].
  destruct (sidebar_kernel_returns default_params eq_refl) as (out & Hk & _).
  exists out. exact Hk.
Defined.

Example slider_N_values :
  filter (λ n, slider_N n = true) (range 0 600)
  = [50; 75; 100; 125; 150; 175; 200; 225; 250; 275; 300; 325; 350; 375;
     400; 425; 450; 475; 500].
Proof. vm_compute. reflexivity. Qed.

(** ** The script against the kernel *)

Lemma bind_Raise {A B : Type} (e : exn) (k : A → result B) :
  Raise e ≫= k = Raise e.
Proof. reflexivity. Qed.

Section ScriptRuns.
Context {F : Type} {arith : Arith F} {libm : Libm F}.
Implicit Types (p : Params F) (h xi : F) (a : list F) (k : Z)
  (t xb xc xf : option (list F)) (oi : option Z) (oxi : option F).

(** Each statement on a namespace whose bindings are spelled out. *)
Lemma back_iterate_eq p h t a xc xf k xi :
  back_iterate (Build_Globals p (Some h) t (Some a) xc xf (Some k) (Some xi))
  = prev ← getitem a (k - 1);
    Ok (Build_Globals p (Some h) t (Some a) xc xf (Some k)
                      (Some (back_update p h prev xi))).
Proof. reflexivity. Qed.

Lemma back_xi_eq p h t a xc xf k oxi :
  back_xi (Build_Globals p (Some h) t (Some a) xc xf (Some k) oxi)
  = v ← getitem a (k - 1);
    Ok (Build_Globals p (Some h) t (Some a) xc xf (Some k) (Some v)).
Proof. reflexivity. Qed.

Lemma back_store_eq p h t a xc xf k xi :
  back_store (Build_Globals p (Some h) t (Some a) xc xf (Some k) (Some xi))
  = a' ← setitem a k xi;
    Ok (Build_Globals p (Some h) t (Some a') xc xf (Some k) (Some xi)).
Proof. reflexivity. Qed.

Lemma cent_pass_eq p h t xb a xf k oxi :
  cent_pass (Build_Globals p (Some h) t xb (Some a) xf (Some k) oxi)
  = a' ← cent_body p h k a;
    Ok (Build_Globals p (Some h) t xb (Some a') xf (Some k) oxi).
Proof.
  unfold cent_pass, cent_body. cbn [name g_x_cent g_i g_h g_params].
  rewrite !bind_Ok.
  destruct (getitem a (k - 1)) as [prev|e]; [|by rewrite !bind_Raise]. rewrite !bind_Ok.
  destruct (getitem a k) as [cur|e]; [|by rewrite !bind_Raise]. rewrite !bind_Ok.
  reflexivity.
Qed.

Lemma forw_pass_eq p h t xb xc a k oxi :
  forw_pass (Build_Globals p (Some h) t xb xc (Some a) (Some k) oxi)
  = a' ← forw_body p h k a;
    Ok (Build_Globals p (Some h) t xb xc (Some a') (Some k) oxi).
Proof.
  unfold forw_pass, forw_body. cbn [name g_x_forw g_i g_h g_params].
  rewrite !bind_Ok.
  destruct (getitem a k) as [cur|e]; [|by rewrite !bind_Raise]. rewrite !bind_Ok.
  reflexivity.
Qed.

(** The inner loop of the backward block only rebinds [xi]. *)
Lemma back_iterate_run (l : list Z) p h t a xc xf k xi :
  for_ l (λ _ g, back_iterate g)
       (Build_Globals p (Some h) t (Some a) xc xf (Some k) (Some xi))
  = xi' ← for_ l (λ _ xi, back_inner p h a k xi) xi;
    Ok (Build_Globals p (Some h) t (Some a) xc xf (Some k) (Some xi')).
Proof.
  revert xi. induction l as [|j l IH]; intros xi; [reflexivity|].
  cbn [for_]. rewrite back_iterate_eq.
  change (back_inner p h a k xi)
    with (prev ← getitem a (k - 1); Ok (back_update p h prev xi)).
  destruct (getitem a (k - 1)) as [prev|e] eqn:Hget;
    [|by rewrite !bind_Raise].
  rewrite !bind_Ok. apply IH.
Qed.

(** One pass of the outer loop rebinds [x_back] as [back_body] computes it,
    whatever [xi] held before. *)
Lemma back_pass_run p h t a xc xf k oxi :
  match back_body p h k a with
  | Ok a' =>
      ∃ xi', back_pass (Build_Globals p (Some h) t (Some a) xc xf (Some k) oxi)
             = Ok (Build_Globals p (Some h) t (Some a') xc xf (Some k)
                                 (Some xi'))
  | Raise e =>
      back_pass (Build_Globals p (Some h) t (Some a) xc xf (Some k) oxi)
      = Raise e
  end.
Proof.
  unfold back_pass, back_body. rewrite back_xi_eq.
  destruct (getitem a (k - 1)) as [v|e] eqn:Hget;
    [|by rewrite !bind_Raise].
  rewrite !bind_Ok, back_iterate_run.
  destruct (for_ (range 0 15) _ v) as [xi'|e]; [|by rewrite !bind_Raise].
  rewrite !bind_Ok, back_store_eq.
  destruct (setitem a k xi') as [a'|e]; [|by rewrite !bind_Raise].
  rewrite !bind_Ok. eauto.
Qed.

Lemma back_loop_run (l : list Z) p h t a xc xf oi oxi :
  match for_ l (back_body p h) a with
  | Ok a' =>
      ∃ oi' oxi',
        for_i l back_pass (Build_Globals p (Some h) t (Some a) xc xf oi oxi)
        = Ok (Build_Globals p (Some h) t (Some a') xc xf oi' oxi')
  | Raise e =>
      for_i l back_pass (Build_Globals p (Some h) t (Some a) xc xf oi oxi)
      = Raise e
  end.
Proof.
  revert a oi oxi. induction l as [|k l IH]; intros a oi oxi.
  { cbn. eauto. }
  unfold for_i. cbn [for_].
  change (set_i (Build_Globals p (Some h) t (Some a) xc xf oi oxi) k)
    with (Build_Globals p (Some h) t (Some a) xc xf (Some k) oxi).
  pose proof (back_pass_run p h t a xc xf k oxi) as Hpass.
  destruct (back_body p h k a) as [a1|e].
  - destruct Hpass as (xi' & ->). rewrite !bind_Ok. apply IH.
  - rewrite Hpass. by rewrite !bind_Raise.
Qed.

Lemma back_block_run p h t xb xc xf oi oxi :
  match x_back p h with
  | Ok a =>
      ∃ oi' oxi', back_block (Build_Globals p (Some h) t xb xc xf oi oxi)
                  = Ok (Build_Globals p (Some h) t (Some a) xc xf oi' oxi')
  | Raise e =>
      back_block (Build_Globals p (Some h) t xb xc xf oi oxi) = Raise e
  end.
Proof.
  unfold x_back, back_block, back_alloc.
  cbn [g_params].
  destruct (np_zeros (N p + 1)) as [a|e]; [|by rewrite !bind_Raise].
  rewrite !bind_Ok. unfold back_left, set_x_back.
  cbn [name g_params g_h g_t g_x_back g_x_cent g_x_forw g_i g_xi].
  rewrite !bind_Ok.
  destruct (setitem a 0 (x0 p)) as [a1|e]; [|by rewrite !bind_Raise].
  rewrite !bind_Ok. unfold back_right, set_x_back.
  cbn [name g_params g_h g_t g_x_back g_x_cent g_x_forw g_i g_xi].
  rewrite !bind_Ok.
  destruct (setitem a1 (-1) (xT p)) as [a2|e]; [|by rewrite !bind_Raise].
  rewrite !bind_Ok.
  cbn [g_params g_h g_t g_x_back g_x_cent g_x_forw g_i g_xi].
  apply back_loop_run.
Qed.

Lemma cent_loop_run (l : list Z) p h t xb a xf oi oxi :
  match for_ l (cent_body p h) a with
  | Ok a' =>
      ∃ oi', for_i l cent_pass (Build_Globals p (Some h) t xb (Some a) xf
                                              oi oxi)
             = Ok (Build_Globals p (Some h) t xb (Some a') xf oi' oxi)
  | Raise e =>
      for_i l cent_pass (Build_Globals p (Some h) t xb (Some a) xf oi oxi)
      = Raise e
  end.
Proof.
  revert a oi. induction l as [|k l IH]; intros a oi.
  { cbn. eauto. }
  unfold for_i. cbn [for_].
  change (set_i (Build_Globals p (Some h) t xb (Some a) xf oi oxi) k)
    with (Build_Globals p (Some h) t xb (Some a) xf (Some k) oxi).
  rewrite cent_pass_eq.
  destruct (cent_body p h k a) as [a1|e]; [|by rewrite !bind_Raise].
  rewrite !bind_Ok. apply IH.
Qed.

Lemma cent_block_run p h t xb xc xf oi oxi :
  match x_cent p h with
  | Ok a =>
      ∃ oi', cent_block (Build_Globals p (Some h) t xb xc xf oi oxi)
             = Ok (Build_Globals p (Some h) t xb (Some a) xf oi' oxi)
  | Raise e =>
      cent_block (Build_Globals p (Some h) t xb xc xf oi oxi) = Raise e
  end.
Proof.
  unfold x_cent, cent_block, cent_alloc.
  cbn [g_params].
  destruct (np_zeros (N p + 1)) as [a|e]; [|by rewrite !bind_Raise].
  rewrite !bind_Ok. unfold cent_left, set_x_cent.
  cbn [name g_params g_h g_t g_x_back g_x_cent g_x_forw g_i g_xi].
  rewrite !bind_Ok.
  destruct (setitem a 0 (x0 p)) as [a1|e]; [|by rewrite !bind_Raise].
  rewrite !bind_Ok. unfold cent_right, set_x_cent.
  cbn [name g_params g_h g_t g_x_back g_x_cent g_x_forw g_i g_xi].
  rewrite !bind_Ok.
  destruct (setitem a1 (-1) (xT p)) as [a2|e]; [|by rewrite !bind_Raise].
  rewrite !bind_Ok. unfold cent_second, set_x_cent.
  cbn [name g_params g_h g_t g_x_back g_x_cent g_x_forw g_i g_xi].
  rewrite !bind_Ok.
  destruct (setitem a2 1 (cent_seed p h)) as [a3|e];
    [|by rewrite !bind_Raise].
  rewrite !bind_Ok.
  cbn [g_params g_h g_t g_x_back g_x_cent g_x_forw g_i g_xi].
  apply cent_loop_run.
Qed.

Lemma forw_loop_run (l : list Z) p h t xb xc a oi oxi :
  match for_ l (forw_body p h) a with
  | Ok a' =>
      ∃ oi', for_i l forw_pass (Build_Globals p (Some h) t xb xc (Some a)
                                              oi oxi)
             = Ok (Build_Globals p (Some h) t xb xc (Some a') oi' oxi)
  | Raise e =>
      for_i l forw_pass (Build_Globals p (Some h) t xb xc (Some a) oi oxi)
      = Raise e
  end.
Proof.
  revert a oi. induction l as [|k l IH]; intros a oi.
  { cbn. eauto. }
  unfold for_i. cbn [for_].
  change (set_i (Build_Globals p (Some h) t xb xc (Some a) oi oxi) k)
    with (Build_Globals p (Some h) t xb xc (Some a) (Some k) oxi).
  rewrite forw_pass_eq.
  destruct (forw_body p h k a) as [a1|e]; [|by rewrite !bind_Raise].
  rewrite !bind_Ok. apply IH.
Qed.

Lemma forw_block_run p h t xb xc xf oi oxi :
  match x_forw p h with
  | Ok a =>
      ∃ oi', forw_block (Build_Globals p (Some h) t xb xc xf oi oxi)
             = Ok (Build_Globals p (Some h) t xb xc (Some a) oi' oxi)
  | Raise e =>
      forw_block (Build_Globals p (Some h) t xb xc xf oi oxi) = Raise e
  end.
Proof.
  unfold x_forw, forw_block, forw_alloc.
  cbn [g_params].
  destruct (np_zeros (N p + 1)) as [a|e]; [|by rewrite !bind_Raise].
  rewrite !bind_Ok. unfold forw_left, set_x_forw.
  cbn [name g_params g_h g_t g_x_back g_x_cent g_x_forw g_i g_xi].
  rewrite !bind_Ok.
  destruct (setitem a 0 (x0 p)) as [a1|e]; [|by rewrite !bind_Raise].
  rewrite !bind_Ok.
  cbn [g_params g_h g_t g_x_back g_x_cent g_x_forw g_i g_xi].
  apply forw_loop_run.
Qed.

(** Run in any namespace, the statements of lines 78 to 122 raise what the
    kernel raises, or leave the parameters as they were and bind [h], [t],
    [x_back], [x_cent] and [x_forw] to what the kernel returns. *)
Lemma script_run (g : Globals F) :
  match kernel (g_params g) with
  | Ok out =>
      ∃ g1, script g = Ok g1 ∧ g_params g1 = g_params g ∧
            outputs_of g1 = Ok out
  | Raise e => script g = Raise e
  end.
Proof.
  destruct g as [p oh ot oxb oxc oxf oi oxi].
  unfold kernel, script, bind_h. cbn [g_params].
  destruct (truediv (T p) (N p)) as [h|e]; [|by rewrite !bind_Raise].
  rewrite !bind_Ok. unfold bind_t, set_h.
  cbn [g_params g_h g_t g_x_back g_x_cent g_x_forw g_i g_xi].
  destruct (linspace (of_int 0) (T p) (N p + 1)) as [t|e];
    [|by rewrite !bind_Raise].
  rewrite !bind_Ok. unfold set_t.
  cbn [g_params g_h g_t g_x_back g_x_cent g_x_forw g_i g_xi].
  pose proof (back_block_run p h (Some t) oxb oxc oxf oi oxi) as Hb.
  destruct (x_back p h) as [xb|e];
    [|by rewrite Hb, !bind_Raise].
  destruct Hb as (oi1 & oxi1 & ->). rewrite !bind_Ok.
  pose proof (cent_block_run p h (Some t) (Some xb) oxc oxf oi1 oxi1) as Hc.
  destruct (x_cent p h) as [xc|e];
    [|by rewrite Hc, !bind_Raise].
  destruct Hc as (oi2 & ->). rewrite !bind_Ok.
  pose proof (forw_block_run p h (Some t) (Some xb) (Some xc) oxf oi2 oxi1)
    as Hf.
  destruct (x_forw p h) as [xf|e]; [|by rewrite Hf, ?bind_Raise].
  destruct Hf as (oi3 & ->). rewrite !bind_Ok.
  eexists. split; [reflexivity|]. split; reflexivity.
Qed.

(** C7. The outputs of a run depend on the six parameters only.  Run in two
    namespaces that hold the same parameters, whatever else an earlier run
    has left bound in them, the script binds the same [h], [t], [x_back],
    [x_cent] and [x_forw], those of the kernel, or raises the same
    exception; a run that returns leaves the parameters as they were, and
    run again in the namespace it returned it binds the same outputs
    again. *)
Theorem script_deterministic (g g' : Globals F) :
  g_params g = g_params g' →
  (script g ≫= outputs_of) = (script g' ≫= outputs_of) ∧
  (script g ≫= outputs_of) = kernel (g_params g) ∧
  ∀ g1, script g = Ok g1 →
    g_params g1 = g_params g ∧
    (script g1 ≫= outputs_of) = outputs_of g1.
Proof.
  intros Hp.
  assert (∀ g0 : Globals F, (script g0 ≫= outputs_of) = kernel (g_params g0))
    as Hout.
  { intros g0. pose proof (script_run g0) as Hrun.
    destruct (kernel (g_params g0)) as [out|e];
      [|by rewrite Hrun, bind_Raise].
    destruct Hrun as (g1 & -> & _ & Ho). by rewrite bind_Ok. }
  split; [by rewrite !Hout, Hp|]. split; [apply Hout|].
  intros g1 Hg1. pose proof (script_run g) as Hrun.
  pose proof (Hout g) as Hg. rewrite Hg1, bind_Ok in Hg.
  destruct (kernel (g_params g)) as [out|e] eqn:Hker; [|congruence].
  destruct Hrun as (g2 & Hg2 & Hpar & _).
  assert (g2 = g1) as -> by congruence.
  split; [done|]. rewrite Hout, Hpar. congruence.
Qed.
End ScriptRuns.

Lemma script_deterministic_witness :
  g_params fresh_globals = g_params stale_globals ∧
  (script fresh_globals ≫= outputs_of)
  = (script stale_globals ≫= outputs_of).
Proof.
  split; [reflexivity|].
  apply (script_deterministic fresh_globals stale_globals eq_refl).
Defined.

(** ** The values of [N] for which the kernel raises *)

Section Raises.
Context {F : Type} {arith : Arith F} {libm : Libm F}.
Implicit Types (p : Params F).

(** With an [N] that does not fit a float the first statement raises. *)
Lemma kernel_overflow p :
  float_int_bound ≤ Z.abs (N p) → kernel p = Raise OverflowError.
Proof. intros HN. unfold kernel. by rewrite truediv_overflow. Qed.

(** With [N = -1] the grid is empty and [x_back[0] = x0] is out of range. *)
Lemma kernel_minus_one p : N p = -1 → kernel p = Raise IndexError.
Proof. intros HN. unfold kernel, truediv, x_back. by rewrite HN. Qed.

(** With any other negative [N] [np.linspace] is asked for a negative
    number of samples. *)
Lemma kernel_negative p :
  - float_int_bound < N p ≤ -2 → kernel p = Raise ValueError.
Proof.
  intros HN. unfold kernel. rewrite truediv_fits by lia. rewrite bind_Ok.
  unfold linspace. destruct (Z.ltb_spec (N p + 1) 0); [done|lia].
Qed.

(** C8, amended.  With [N = 0] the division [h = T / N] raises
    [ZeroDivisionError], and so does the script in any namespace, at its
    first statement.  With [N >= 1] no [ZeroDivisionError] is raised
    anywhere in the kernel, nor by the script in any namespace; the
    division returns [h = T / float(N)] when [N] is below
    [2**1024 - 2**970], and raises [OverflowError], as the kernel then
    does, from there on. *)
Theorem step_division p :
  (N p = 0 →
     truediv (T p) (N p) = Raise ZeroDivisionError ∧
     kernel p = Raise ZeroDivisionError ∧
     ∀ g, g_params g = p → script g = Raise ZeroDivisionError) ∧
  (1 ≤ N p →
     kernel p ≠ Raise ZeroDivisionError ∧
     ∀ g, g_params g = p → script g ≠ Raise ZeroDivisionError) ∧
  (1 ≤ N p → N p < float_int_bound →
     truediv (T p) (N p) = Ok (fdiv (T p) (of_int (N p)))) ∧
  (float_int_bound ≤ N p →
     truediv (T p) (N p) = Raise OverflowError ∧
     kernel p = Raise OverflowError).
Proof.
  assert (1 ≤ N p → kernel p ≠ Raise ZeroDivisionError) as Hker.
  { intros HN. destruct (decide (N p < float_int_bound)) as [HB|HB].
    - destruct (kernel_run p HN HB) as (out & -> & _). discriminate.
    - rewrite kernel_overflow by lia. discriminate. }
  split; [|split; [|split]].
  - intros HN. split; [unfold truediv; by rewrite HN|].
    split; [by apply kernel_zero|].
    intros g Hg. pose proof (script_run g) as Hrun.
    rewrite Hg, kernel_zero in Hrun by done. exact Hrun.
  - intros HN. split; [by apply Hker|].
    intros g Hg Hs. pose proof (script_run g) as Hrun. rewrite Hg in Hrun.
    destruct (kernel p) as [out|e] eqn:Hk.
    + destruct Hrun as (g1 & Hg1 & _). congruence.
    + apply (Hker HN). congruence.
  - intros HN HB. apply truediv_fits; lia.
  - intros HB. pose proof float_int_bound_large.
    split; [apply truediv_overflow|apply kernel_overflow]; lia.
Qed.

(** X1.  The kernel returns only for [1 <= N < 2**1024 - 2**970].  It raises
    [ZeroDivisionError] for [N = 0], [OverflowError] when [N] does not fit
    a float, [IndexError] for [N = -1] and [ValueError] for every other
    negative [N]. *)
Theorem kernel_raises p :
  (N p = 0 → kernel p = Raise ZeroDivisionError) ∧
  (float_int_bound ≤ Z.abs (N p) → kernel p = Raise OverflowError) ∧
  (N p = -1 → kernel p = Raise IndexError) ∧
  (- float_int_bound < N p ≤ -2 → kernel p = Raise ValueError) ∧
  ((∃ out, kernel p = Ok out) → 1 ≤ N p < float_int_bound).
Proof.
  split; [apply kernel_zero|]. split; [apply kernel_overflow|].
  split; [apply kernel_minus_one|]. split; [apply kernel_negative|].
  intros (out & Hk).
  destruct (decide (float_int_bound ≤ Z.abs (N p))) as [Ho|Ho].
  { rewrite kernel_overflow in Hk by done. discriminate. }
  destruct (decide (N p = 0)) as [E|].
  { rewrite kernel_zero in Hk by done. discriminate. }
  destruct (decide (N p = -1)) as [E|].
  { rewrite kernel_minus_one in Hk by done. discriminate. }
  destruct (decide (N p ≤ -2)) as [E|].
  { rewrite kernel_negative in Hk by lia. discriminate. }
  lia.
Qed.
End Raises.

(** C8, as stated, fails at [N = 10**400]: the division [1.0 / N] raises
    [OverflowError], and so does the kernel. *)
Lemma step_division_overflows :
  1 ≤ 10 ^ 400 ∧
  truediv 1%float (10 ^ 400) = Raise OverflowError ∧
  (¬ ∃ h : float, truediv 1%float (10 ^ 400) = Ok h) ∧
  kernel huge_params = Raise OverflowError.
Proof.
  assert (float_int_bound ≤ Z.abs (10 ^ 400)) as Hb
    by (apply Z.leb_le; vm_compute; reflexivity).
  split; [apply Z.leb_le; vm_compute; reflexivity|].
  split; [by apply truediv_overflow|].
  split; [|by apply kernel_overflow].
  intros (h & Hh). rewrite truediv_overflow in Hh by done. discriminate.
Qed.

Lemma step_division_witness :
  (N no_interval_params = 0 ∧
   kernel no_interval_params = Raise ZeroDivisionError) ∧
  (1 ≤ N default_params ∧ N default_params < float_int_bound ∧
   kernel default_params ≠ Raise ZeroDivisionError ∧
   truediv (T default_params) (N default_params) = Ok (1 / 200)%R) ∧
  (float_int_bound ≤ N huge_params ∧
   kernel huge_params = Raise OverflowError).
Proof.
  assert (1 ≤ N default_params) as HN by (simpl; lia).
  assert (N default_params < float_int_bound) as HB by reflexivity.
  assert (float_int_bound ≤ N huge_params) as HH
    by (apply Z.leb_le; vm_compute; reflexivity).
  destruct (step_division no_interval_params) as (H0 & _).
  destruct (step_division default_params) as (_ & H1 & H2 & _).
  destruct (step_division huge_params) as (_ & _ & _ & H3).
  split; [split; [reflexivity|apply (H0 eq_refl)]|].
  split.
  - split; [exact HN|]. split; [exact HB|].
    split; [apply (H1 HN)|apply (H2 HN HB)].
  - split; [exact HH|]. apply (H3 HH).
Defined.

Lemma kernel_raises_witness :
  kernel no_interval_params = Raise ZeroDivisionError ∧
  kernel huge_params = Raise OverflowError ∧
  kernel minus_one_params = Raise IndexError ∧
  kernel minus_two_params = Raise ValueError.
Proof.
  destruct (kernel_raises no_interval_params) as (H0 & _).
  destruct (kernel_raises huge_params) as (_ & H1 & _).
  destruct (kernel_raises minus_one_params) as (_ & _ & H2 & _).
  destruct (kernel_raises minus_two_params) as (_ & _ & _ & H3 & _).
  split; [apply H0; reflexivity|].
  split; [apply H1; apply Z.leb_le; vm_compute; reflexivity|].
  split; [apply H2; reflexivity|].
  apply H3. split; [reflexivity|]. apply Z.leb_le. reflexivity.
Defined.

(** ** The default run in binary64 *)

Lemma for_ext {S : Type} (l : list Z) (body body' : Z → S → result S) (s : S) :
  (∀ i s, body i s = body' i s) → for_ l body s = for_ l body' s.
Proof.
  intros Hext. revert s. induction l as [|i l IH]; intros s; [done|].
  cbn [for_]. rewrite Hext. destruct (body' i s) as [s'|e]; [|done].
  rewrite !bind_Ok. apply IH.
Qed.

Lemma truediv_Ok {F : Type} {arith : Arith F} (x h : F) (n : Z) :
  truediv x n = Ok h → h = fdiv x (of_int n).
Proof.
  unfold truediv. destruct (n =? 0); [done|].
  destruct (fits_float n); [|done]. by intros [= <-].
Qed.

(** The kernel asks a libm for [x ** alpha] and for [exp(-lam * h)] only:
    two libms that agree there give the same run. *)
Lemma kernel_libm_ext {F : Type} {arith : Arith F} (L L' : Libm F)
    (p : Params F) :
  (∀ x, @fpow F L x (alpha p) = @fpow F L' x (alpha p)) →
  @fexp F L (fmul (fneg (lam p)) (fdiv (T p) (of_int (N p))))
  = @fexp F L' (fmul (fneg (lam p)) (fdiv (T p) (of_int (N p)))) →
  @kernel F arith L p = @kernel F arith L' p.
Proof.
  intros Hpow Hexp. unfold kernel.
  destruct (truediv (T p) (N p)) as [h|e] eqn:Hh; [|done].
  apply truediv_Ok in Hh. subst h. rewrite !bind_Ok.
  set (h := fdiv (T p) (of_int (N p))) in *.
  assert (∀ x, @f F arith L p x = @f F arith L' p x) as Hf.
  { intros x. unfold f. by rewrite Hpow. }
  assert (@x_back F arith L p h = @x_back F arith L' p h) as ->.
  { unfold x_back.
    destruct (np_zeros (N p + 1)) as [a|e]; [|done]. rewrite !bind_Ok.
    destruct (setitem a 0 (x0 p)) as [a1|e]; [|done]. rewrite !bind_Ok.
    destruct (setitem a1 (-1) (xT p)) as [a2|e]; [|done]. rewrite !bind_Ok.
    apply for_ext. intros i a3. unfold back_body.
    destruct (getitem a3 (i - 1)) as [xi|e]; [|done]. rewrite !bind_Ok.
    f_equal. apply for_ext. intros _ y. unfold back_inner, back_update.
    by rewrite Hpow. }
  assert (@x_cent F arith L p h = @x_cent F arith L' p h) as ->.
  { unfold x_cent, cent_seed. fold h in Hexp. rewrite Hexp.
    destruct (np_zeros (N p + 1)) as [a|e]; [|done]. rewrite !bind_Ok.
    destruct (setitem a 0 (x0 p)) as [a1|e]; [|done]. rewrite !bind_Ok.
    destruct (setitem a1 (-1) (xT p)) as [a2|e]; [|done]. rewrite !bind_Ok.
    destruct (setitem a2 1 _) as [a3|e]; [|done]. rewrite !bind_Ok.
    apply for_ext. intros i a4. unfold cent_body, cent_update.
    destruct (getitem a4 (i - 1)) as [u|e]; [|done]. rewrite !bind_Ok.
    destruct (getitem a4 i) as [v|e]; [|done]. rewrite !bind_Ok.
    by rewrite Hf. }
  assert (@x_forw F arith L p h = @x_forw F arith L' p h) as ->.
  { unfold x_forw.
    destruct (np_zeros (N p + 1)) as [a|e]; [|done]. rewrite !bind_Ok.
    destruct (setitem a 0 (x0 p)) as [a1|e]; [|done]. rewrite !bind_Ok.
    apply for_ext. intros i a2. unfold forw_body.
    destruct (getitem a2 i) as [v|e]; [|done]. rewrite !bind_Ok.
    by rewrite Hf. }
  reflexivity.
Qed.

(** The default run with the correctly rounded cube and any of the three
    values of [exp(-0.035)]: 603 finite values. *)
Lemma default_run_cube (e : float) :
  In e default_exp_values →
  ∃ out, kernel (libm := cube_libm e) default_binary64 = Ok out ∧
    forallb is_finite (out_back out) = true ∧
    forallb is_finite (out_cent out) = true ∧
    forallb is_finite (out_forw out) = true.
Proof.
  intros [<-|[<-|[<-|[]]]];
    (eexists; split; [vm_compute; reflexivity|]);
    repeat split; vm_compute; reflexivity.
Qed.


